(** * Bounty entry service: awarding, file gating, deletion

    A shallow embedding of [src/server/services/bountyEntry.service.ts].

    The service is a sequence of Prisma calls against one database plus a
    call to the buzz (payment ledger) service.  The database is modelled as
    a record of finite maps, one per table, keyed as the tables are keyed;
    the service functions are written in a small state-and-error monad over
    the database and a log of the calls issued to the collaborators.
    [dbRead] and [dbWrite] denote the same store.  Each Prisma call changes
    the table it names; constraints and referential actions declared in the
    Prisma schema, which is not among the sources, are not modelled. *)

From stdpp Require Import gmap strings list fin_maps.
From Stdlib Require Import ZArith Lia.

Local Open Scope Z_scope.

(** ** Data model *)

(** Modelled from the spec: the [Currency] enum of the generated Prisma
    client; [BUZZ] is the platform's virtual currency. *)
Module Currency.
Inductive t := USD | BUZZ.

#[global] Instance currency_eq_dec : EqDecision t.
Proof. solve_decision. Defined.
End Currency.

(** Modelled from the spec: the [TransactionType] enum of the buzz schema;
    only [Bounty] is used by this service. *)
Module TransactionType.
Inductive t := Tip | Reward | Purchase | Bounty.

#[global] Instance transactionType_eq_dec : EqDecision t.
Proof. solve_decision. Defined.
End TransactionType.

(** A [Bounty] row, keyed by its id. *)
Record Bounty := mkBounty { complete : bool }.

(** A [BountyEntry] row, keyed by its id.  [userId] is nullable. *)
Record BountyEntry := mkBountyEntry {
  entry_bountyId : Z;
  entry_userId : option Z;
  entry_description : string;
}.

(** A [BountyBenefactor] row, keyed by [(bountyId, userId)]. *)
Record BountyBenefactor := mkBountyBenefactor {
  unitAmount : Z;
  currency : Currency.t;
  awardedToId : option Z;
  awardedAt : option Z;
}.

(** [BountyEntryFileMeta]: both fields are optional in the code
    ([details.benefactorsOnly ? .. : ..], [details.unlockAmount ?? 0]). *)
Record BountyEntryFileMeta := mkFileMeta {
  benefactorsOnly : option bool;
  unlockAmount : option Z;
}.

(** A [File] row, keyed by its id; also the descriptor returned by the file
    listing, whose [url] is nullable. *)
Record File := mkFile {
  file_name : string;
  file_url : option string;
  file_sizeKB : Z;
  file_metadata : BountyEntryFileMeta;
  file_entityId : Z;
  file_entityType : string;
}.

Record Image := mkImage { image_url : string; image_userId : Z }.

(** An [ImageConnection] row is its own key. *)
Record ImageConnection := mkImageConnection {
  imageId : Z;
  conn_entityId : Z;
  conn_entityType : string;
}.

#[global] Instance ImageConnection_eq_dec : EqDecision ImageConnection.
Proof. solve_decision. Defined.

Record DB := mkDB {
  bounty : gmap Z Bounty;
  bountyEntry : gmap Z BountyEntry;
  bountyBenefactor : gmap (Z * Z) BountyBenefactor;
  file : gmap Z File;
  imageConnection : list ImageConnection;
  image : gmap Z Image;
}.

(** The argument of [createBuzzTransaction]. *)
Record BuzzTransaction := mkBuzzTransaction {
  fromAccountId : Z;
  toAccountId : Z;
  amount : Z;
  type : TransactionType.t;
  tx_description : string;
}.

(** Calls that write to the database or reach the ledger, in the order in
    which they are issued. *)
Inductive Call :=
  | bountyEntry_update_call (id : Z)
  | bountyEntry_create_call (id : Z)
  | bountyEntry_delete_call (id : Z)
  | bountyBenefactor_update_call (bountyId userId : Z)
  | bounty_update_call (id : Z)
  | file_deleteMany_call (entityId : Z) (entityType : string)
  | imageConnection_deleteMany_call (entityId : Z) (entityType : string)
  | image_deleteMany_call (ids : list Z)
  | updateEntityFiles_call (entityId : Z) (entityType : string)
  | createEntityImages_call (entityId : Z) (entityType : string)
  | createBuzzTransaction_call (t : BuzzTransaction).

Record World := mkWorld { db : DB; calls : list Call }.

(** ** Errors

    [NotFoundError] is what Prisma raises from [findUniqueOrThrow] and from
    [update]/[delete] on an absent row.  [BadRequest] is the error raised by
    [throwBadRequestError]; it is the spec's InvalidState.
    [InconsistentResult] is Prisma's error for a required relation whose
    target row is absent, [LedgerError] a failure of the buzz service and
    [CollaboratorError] one of the file or image services.  [TypeError] is
    the JavaScript error of reading a property of [undefined]. *)
Inductive Error :=
  | NotFoundError
  | BadRequest (message : string)
  | InconsistentResult
  | LedgerError
  | CollaboratorError
  | TypeError.

Inductive Result (A : Type) :=
  | Ok (a : A)
  | Err (e : Error).
Arguments Ok {A} a.
Arguments Err {A} e.

(** The spec's InvalidState. *)
Definition isInvalidState {A} (r : Result A) : Prop :=
  ∃ message, r = Err (BadRequest message).

Definition isNotFound {A} (r : Result A) : Prop := r = Err NotFoundError.

(** ** The monad *)

Definition M (A : Type) : Type := World → Result A * World.

Definition ret {A} (a : A) : M A := λ w, (Ok a, w).

Definition throw {A} (e : Error) : M A := λ w, (Err e, w).

Definition bind {A B} (m : M A) (k : A → M B) : M B :=
  λ w, match m w with
       | (Ok a, w') => k a w'
       | (Err e, w') => (Err e, w')
       end.

Notation "'let!' x := c 'in' k" := (bind c (λ x, k))
  (at level 10, x pattern, c at level 100, k at level 200).
Notation "'do!' c 'in' k" := (bind c (λ _, k))
  (at level 10, c at level 100, k at level 200).

Definition read {A} (f : DB → A) : M A := λ w, (Ok (f (db w)), w).

Definition write (c : Call) (f : DB → DB) : M unit :=
  λ w, (Ok tt, {| db := f (db w); calls := calls w ++ [c] |}).

(** [$transaction]: when the callback throws, the database is as it was
    before the callback ran; calls already issued stay issued. *)
Definition transaction {A} (m : M A) : M A :=
  λ w, match m w with
       | (Ok a, w') => (Ok a, w')
       | (Err e, w') => (Err e, {| db := db w; calls := calls w' |})
       end.

(** Modelled from the spec: [throwBadRequestError] of
    [~/server/utils/errorHandling] raises the request error the spec calls
    InvalidState, with the given message. *)
Definition throwBadRequestError {A} (message : string) : M A :=
  throw (BadRequest message).

(** JavaScript truthiness of a nullable number. *)
Definition truthy (x : option Z) : bool :=
  match x with
  | Some n => negb (n =? 0)
  | None => false
  end.

(** ** Prisma calls *)

Definition set_bounty (f : gmap Z Bounty → gmap Z Bounty) (d : DB) : DB :=
  {| bounty := f (bounty d); bountyEntry := bountyEntry d;
     bountyBenefactor := bountyBenefactor d; file := file d;
     imageConnection := imageConnection d; image := image d |}.

Definition set_bountyEntry
    (f : gmap Z BountyEntry → gmap Z BountyEntry) (d : DB) : DB :=
  {| bounty := bounty d; bountyEntry := f (bountyEntry d);
     bountyBenefactor := bountyBenefactor d; file := file d;
     imageConnection := imageConnection d; image := image d |}.

Definition set_bountyBenefactor
    (f : gmap (Z * Z) BountyBenefactor → gmap (Z * Z) BountyBenefactor)
    (d : DB) : DB :=
  {| bounty := bounty d; bountyEntry := bountyEntry d;
     bountyBenefactor := f (bountyBenefactor d); file := file d;
     imageConnection := imageConnection d; image := image d |}.

Definition set_file (f : gmap Z File → gmap Z File) (d : DB) : DB :=
  {| bounty := bounty d; bountyEntry := bountyEntry d;
     bountyBenefactor := bountyBenefactor d; file := f (file d);
     imageConnection := imageConnection d; image := image d |}.

Definition set_imageConnection
    (f : list ImageConnection → list ImageConnection) (d : DB) : DB :=
  {| bounty := bounty d; bountyEntry := bountyEntry d;
     bountyBenefactor := bountyBenefactor d; file := file d;
     imageConnection := f (imageConnection d); image := image d |}.

Definition set_image (f : gmap Z Image → gmap Z Image) (d : DB) : DB :=
  {| bounty := bounty d; bountyEntry := bountyEntry d;
     bountyBenefactor := bountyBenefactor d; file := file d;
     imageConnection := imageConnection d; image := f (image d) |}.

(** [bountyEntry.findUniqueOrThrow({ where: { id } })]. *)
Definition bountyEntry_findUniqueOrThrow (id : Z) : M BountyEntry :=
  let! found := read (λ d, bountyEntry d !! id) in
  match found with
  | Some entry => ret entry
  | None => throw NotFoundError
  end.

(** The same with [select: { .., bounty: { select: { complete: true } } }]:
    the required relation [bounty] is read with the entry. *)
Definition bountyEntry_findUniqueOrThrow_bounty (id : Z)
    : M (BountyEntry * Bounty) :=
  let! entry := bountyEntry_findUniqueOrThrow id in
  let! parent := read (λ d, bounty d !! entry_bountyId entry) in
  match parent with
  | Some b => ret (entry, b)
  | None => throw InconsistentResult
  end.

(** [bountyEntry.update({ where: { id }, data: { description } })]. *)
Definition bountyEntry_update (id : Z) (description : string)
    : M BountyEntry :=
  let! found := read (λ d, bountyEntry d !! id) in
  match found with
  | Some entry =>
      let entry' := {| entry_bountyId := entry_bountyId entry;
                       entry_userId := entry_userId entry;
                       entry_description := description |} in
      do! write (bountyEntry_update_call id)
                (set_bountyEntry (insert id entry')) in
      ret entry'
  | None => throw NotFoundError
  end.

(** The id the database gives to a created entry: above every id in use. *)
Definition nextId {V} (table : gmap Z V) : Z :=
  1 + map_fold (λ k _ acc, Z.max k acc) 0 table.

(** [bountyEntry.create({ data: { bountyId, userId, description } })]. *)
Definition bountyEntry_create (bountyId userId : Z) (description : string)
    : M (Z * BountyEntry) :=
  let! id := read (λ d, nextId (bountyEntry d)) in
  let entry := {| entry_bountyId := bountyId; entry_userId := Some userId;
                  entry_description := description |} in
  do! write (bountyEntry_create_call id) (set_bountyEntry (insert id entry)) in
  ret (id, entry).

(** [bountyEntry.delete({ where: { id } })]. *)
Definition bountyEntry_delete (id : Z) : M BountyEntry :=
  let! found := read (λ d, bountyEntry d !! id) in
  match found with
  | Some entry =>
      do! write (bountyEntry_delete_call id) (set_bountyEntry (delete id)) in
      ret entry
  | None => throw NotFoundError
  end.

(** [bountyBenefactor.findUnique({ where: { bountyId_userId } })]. *)
Definition bountyBenefactor_findUnique (bountyId userId : Z)
    : M (option BountyBenefactor) :=
  read (λ d, bountyBenefactor d !! (bountyId, userId)).

Definition bountyBenefactor_findUniqueOrThrow (bountyId userId : Z)
    : M BountyBenefactor :=
  let! found := bountyBenefactor_findUnique bountyId userId in
  match found with
  | Some b => ret b
  | None => throw NotFoundError
  end.

(** A benefactor row after [data: { awardedToId, awardedAt }] is written. *)
Definition awardedRow (awardedTo at_ : Z) (b : BountyBenefactor)
    : BountyBenefactor :=
  {| unitAmount := unitAmount b; currency := currency b;
     awardedToId := Some awardedTo; awardedAt := Some at_ |}.

(** [bountyBenefactor.update({ where: { bountyId_userId },
    data: { awardedToId, awardedAt } })]. *)
Definition bountyBenefactor_update (bountyId userId : Z)
    (awardedTo at_ : Z) : M BountyBenefactor :=
  let! found := bountyBenefactor_findUnique bountyId userId in
  match found with
  | Some b =>
      do! write (bountyBenefactor_update_call bountyId userId)
                (set_bountyBenefactor
                   (insert (bountyId, userId) (awardedRow awardedTo at_ b))) in
      ret (awardedRow awardedTo at_ b)
  | None => throw NotFoundError
  end.

(** The rows matched by [where: { awardedToId: null, bountyId }]. *)
Definition unawarded (bountyId : Z) (d : DB) : gmap (Z * Z) BountyBenefactor :=
  filter (λ kv, kv.1.1 = bountyId ∧ awardedToId kv.2 = None)
         (bountyBenefactor d).

(** [bountyBenefactor.findFirst({ select: { userId: true },
    where: { awardedToId: null, bountyId } })]. *)
Definition bountyBenefactor_findFirst_unawarded (bountyId : Z)
    : M (option Z) :=
  read (λ d, (λ kv : Z * Z * BountyBenefactor, kv.1.2)
               <$> head (map_to_list (unawarded bountyId d))).

(** [bounty.update({ where: { id }, data: { complete: true } })]. *)
Definition bounty_update_complete (id : Z) : M unit :=
  let! found := read (λ d, bounty d !! id) in
  match found with
  | Some _ =>
      write (bounty_update_call id)
            (set_bounty (insert id {| complete := true |}))
  | None => throw NotFoundError
  end.

Definition file_attached (entityId : Z) (entityType : string) (f : File)
    : Prop :=
  file_entityId f = entityId ∧ file_entityType f = entityType.

Definition conn_attached (entityId : Z) (entityType : string)
    (c : ImageConnection) : Prop :=
  conn_entityId c = entityId ∧ conn_entityType c = entityType.

(** [file.deleteMany({ where: { entityId, entityType } })]. *)
Definition file_deleteMany (entityId : Z) (entityType : string) : M unit :=
  write (file_deleteMany_call entityId entityType)
        (set_file (filter (λ kv, ¬ file_attached entityId entityType kv.2))).

(** [imageConnection.findMany({ select: { imageId: true },
    where: { entityId, entityType } })]. *)
Definition imageConnection_findMany (entityId : Z) (entityType : string)
    : M (list Z) :=
  read (λ d, imageId <$>
               filter (conn_attached entityId entityType) (imageConnection d)).

(** [imageConnection.deleteMany({ where: { entityId, entityType } })]. *)
Definition imageConnection_deleteMany (entityId : Z) (entityType : string)
    : M unit :=
  write (imageConnection_deleteMany_call entityId entityType)
        (set_imageConnection
           (filter (λ c, ¬ conn_attached entityId entityType c))).

(** [image.deleteMany({ where: { id: { in: ids } } })]. *)
Definition image_deleteMany (ids : list Z) : M unit :=
  write (image_deleteMany_call ids)
        (set_image (filter (λ kv, kv.1 ∉ ids))).

(** ** The service *)

(** The sum computed by the query of [getBountyEntryEarnedBuzz] for one
    entry: [COALESCE(SUM(bb."unitAmount"), 0)] over the benefactors joined
    on [bb."awardedToId" = be.id AND bb.currency = currency]. *)
Definition awardedUnitAmount (d : DB) (entryId : Z) (cur : Currency.t) : Z :=
  map_fold
    (λ _ b acc,
       if decide (awardedToId b = Some entryId ∧ currency b = cur)
       then unitAmount b + acc else acc)
    0 (bountyBenefactor d).

(** [getBountyEntryEarnedBuzz({ ids, currency = Currency.BUZZ })]: one row
    [(id, awardedUnitAmount)] for each entry whose id is among [ids]. *)
Definition getBountyEntryEarnedBuzz (ids : list Z)
    (currency : option Currency.t) : M (list (Z * Z)) :=
  let cur := default Currency.BUZZ currency in
  match ids with
  | [] => ret []
  | _ =>
      read (λ d,
        omap (λ id, match bountyEntry d !! id with
                    | Some _ => Some (id, awardedUnitAmount d id cur)
                    | None => None
                    end)
             (remove_dups ids))
  end.

(** [getEntryById({ input, select })]: [findUnique] by id, the row or
    null. *)
Definition getEntryById (id : Z) : M (option BountyEntry) :=
  read (λ d, bountyEntry d !! id).

(** The filter [userId: input.userId] of a [where]: an undefined [userId]
    does not restrict the rows. *)
Definition ownedBy (userId : option Z) (entry : BountyEntry) : Prop :=
  match userId with
  | Some u => entry_userId entry = Some u
  | None => True
  end.

#[global] Instance ownedBy_dec userId entry : Decision (ownedBy userId entry).
Proof. destruct userId; simpl; apply _. Defined.

(** [getAllEntriesByBountyId({ input: { bountyId, userId }, select })]:
    [findMany] with [where: { bountyId, userId }]. *)
Definition getAllEntriesByBountyId (bountyId : Z) (userId : option Z)
    : M (list (Z * BountyEntry)) :=
  read (λ d,
    map_to_list
      (filter (λ kv, entry_bountyId kv.2 = bountyId ∧ ownedBy userId kv.2)
              (bountyEntry d))).

(** ** The model service

    [src/server/services/model.service.ts]: the calls that report, update
    and delete a model, and the comparisons that [updateModel] makes
    between what is submitted and what is stored before it writes.  The
    service uses one client, [prisma]; its functions are written with the
    store passed explicitly. *)

(** A [Model] row, keyed by its id, with the columns these calls write. *)
Record Model := mkModel {
  model_name : string;
  model_userId : Z;
  model_nsfw : bool;
  model_tosViolation : bool;
}.

(** The fields of a [Prisma.ModelUpdateInput] that are set; an absent field
    leaves the column as it is. *)
Record ModelUpdateInput := mkModelUpdateInput {
  data_name : option string;
  data_nsfw : option bool;
  data_tosViolation : option bool;
}.

Definition applyModelUpdate (data : ModelUpdateInput) (m : Model) : Model :=
  {| model_name := default (model_name m) (data_name data);
     model_userId := model_userId m;
     model_nsfw := default (model_nsfw m) (data_nsfw data);
     model_tosViolation :=
       default (model_tosViolation m) (data_tosViolation data) |}.

Section ModelReports.

(** The [ReportReason] enum of the Prisma client, of which the service
    names the value [NSFW]. *)
Context {ReportReason : Type} `{EqDecision ReportReason}.
Variable NSFW : ReportReason.

Record ModelReport := mkModelReport {
  report_modelId : Z;
  report_reason : ReportReason;
  report_userId : Z;
}.

Record ModelDB := mkModelDB {
  model : gmap Z Model;
  modelReport : list ModelReport;
}.

(** [updateModelById({ id, data })]: [prisma.model.update]. *)
Definition updateModelById (id : Z) (data : ModelUpdateInput) (d : ModelDB)
    : Result Model * ModelDB :=
  match model d !! id with
  | Some m =>
      (Ok (applyModelUpdate data m),
       {| model := <[id := applyModelUpdate data m]> (model d);
          modelReport := modelReport d |})
  | None => (Err NotFoundError, d)
  end.

(** [prisma.modelReport.create({ data: { modelId, reason, userId } })]. *)
Definition modelReport_create (modelId : Z) (reason : ReportReason)
    (userId : Z) (d : ModelDB) : Result ModelReport * ModelDB :=
  let report := {| report_modelId := modelId; report_reason := reason;
                   report_userId := userId |} in
  (Ok report, {| model := model d; modelReport := modelReport d ++ [report] |}).

(** [reportModelById({ id, reason, userId })]: the update and the report in
    one [$transaction([...])], which keeps both or neither. *)
Definition reportModelById (id : Z) (reason : ReportReason) (userId : Z)
    (d : ModelDB) : Result (Model * ModelReport) * ModelDB :=
  let data :=
    if decide (reason = NSFW)
    then {| data_name := None; data_nsfw := Some true;
            data_tosViolation := None |}
    else {| data_name := None; data_nsfw := None;
            data_tosViolation := Some true |} in
  match updateModelById id data d with
  | (Ok m, d1) =>
      match modelReport_create id reason userId d1 with
      | (Ok report, d2) => (Ok (m, report), d2)
      | (Err e, _) => (Err e, d)
      end
  | (Err e, _) => (Err e, d)
  end.

(** [deleteModelById({ id })]: [prisma.model.delete]. *)
Definition deleteModelById (id : Z) (d : ModelDB) : Result Model * ModelDB :=
  match model d !! id with
  | Some m =>
      (Ok m, {| model := delete id (model d); modelReport := modelReport d |})
  | None => (Err NotFoundError, d)
  end.

(** The store after a sequence of reports, whether they returned or
    threw. *)
Definition reported (d : ModelDB) (reports : list (Z * ReportReason * Z))
    : ModelDB :=
  foldl (λ d r, (reportModelById r.1.1 r.1.2 r.2 d).2) d reports.

End ModelReports.

Arguments ModelReport : clear implicits.
Arguments ModelDB : clear implicits.

Section UpdateModel.

(** The [ModelFileType] enum of the Prisma client, the key of a file within
    a version.  Its values are non-empty strings, so a file's [type] is
    falsy only when it is absent. *)
Context {FileType : Type} `{Countable FileType}.

(** A tag of [tagsOnModels]. *)
Record TagInput := mkTagInput { tag_id : option Z; tag_name : string }.

(** A file of a submitted version. *)
Record FileInput := mkFileInput {
  in_type : option FileType;
  in_url : string;
  in_name : string;
  in_sizeKB : Z;
}.

(** A submitted version; [id] and [files] are optional.  The other fields
    of a version go to Prisma as they are. *)
Record VersionInput := mkVersionInput {
  ver_id : option Z;
  ver_name : string;
  ver_files : option (list FileInput);
}.

(** The rows read by [select: { id, files: { select: { type, url } } }]. *)
Record StoredFile := mkStoredFile { stored_type : FileType; stored_url : string }.

Record CurrentVersion := mkCurrentVersion {
  cur_id : Z;
  cur_files : list StoredFile;
}.

(** [tagsOnModels?.reduce(..) ?? { tagsToCreate: [], tagsToUpdate: [] }]:
    the pair [(tagsToCreate, tagsToUpdate)]. *)
Definition splitTags (tagsOnModels : option (list TagInput))
    : list TagInput * list TagInput :=
  match tagsOnModels with
  | Some tags =>
      foldl (λ acc current,
               if negb (truthy (tag_id current))
               then (acc.1 ++ [current], acc.2)
               else (acc.1, acc.2 ++ [current]))
            ([], []) tags
  | None => ([], [])
  end.

(** [modelVersions.map((version) => version.id).filter(Boolean)]. *)
Definition versionIds (modelVersions : list VersionInput) : list Z :=
  omap (λ version, if truthy (ver_id version) then ver_id version else None)
       modelVersions.

(** [currentVersions.filter((version) => !versionIds.includes(version.id))
    .map(({ id }) => id)]. *)
Definition versionsToDelete (currentVersions : list CurrentVersion)
    (modelVersions : list VersionInput) : list Z :=
  cur_id <$>
    filter (λ version, cur_id version ∉ versionIds modelVersions)
           currentVersions.

(** The loop [for (const existingFile of ..)
    existingFileUrls[existingFile.type] = existingFile.url]. *)
Definition existingFileUrls (files : list StoredFile) : gmap FileType string :=
  foldl (λ urls existingFile,
           <[stored_type existingFile := stored_url existingFile]> urls)
        ∅ files.

(** One turn of the loop [for (const file of files)]; the accumulator is
    [(filesToCreate, filesToUpdate)]. *)
Definition fileStep (urls : gmap FileType string)
    (acc : list FileInput * list FileInput) (file : FileInput)
    : list FileInput * list FileInput :=
  match in_type file with
  | None => acc
  | Some type =>
      match urls !! type with
      | None => (acc.1 ++ [file], acc.2)
      | Some existingUrl =>
          if bool_decide (existingUrl = "") then (acc.1 ++ [file], acc.2)
          else if bool_decide (existingUrl ≠ in_url file)
          then (acc.1, acc.2 ++ [file])
          else acc
      end
  end.

(** [(filesToCreate, filesToUpdate)] for one submitted version, as computed
    inside [modelVersions.map(({ id = -1, images, files = [], ..}) => ..)]. *)
Definition versionFileDiff (currentVersions : list CurrentVersion)
    (version : VersionInput) : list FileInput * list FileInput :=
  let id := default (-1) (ver_id version) in
  let existingVersion :=
    List.find (λ x, bool_decide (cur_id x = id)) currentVersions in
  let urls :=
    existingFileUrls (default [] (cur_files <$> existingVersion)) in
  foldl (fileStep urls) ([], []) (default [] (ver_files version)).

End UpdateModel.

Arguments TagInput : clear implicits.
Arguments FileInput : clear implicits.
Arguments VersionInput : clear implicits.
Arguments StoredFile : clear implicits.
Arguments CurrentVersion : clear implicits.

(** Sample data of the model service: two models, one already marked, and
    a stored version with two files. *)
Inductive SampleReason := ReasonNSFW | ReasonTOSViolation | ReasonOwnership.

#[global] Instance SampleReason_eq_dec : EqDecision SampleReason.
Proof. solve_decision. Defined.

Definition sampleModels : ModelDB SampleReason :=
  {| model :=
       {[ 1 := {| model_name := "portraits"; model_userId := 7;
                  model_nsfw := false; model_tosViolation := false |};
          2 := {| model_name := "landscapes"; model_userId := 8;
                  model_nsfw := true; model_tosViolation := false |} ]};
     modelReport := [] |}.

Definition storedVersion : CurrentVersion string :=
  {| cur_id := 4;
     cur_files :=
       [{| stored_type := "Model"; stored_url := "https://files/model-v1" |};
        {| stored_type := "Config"; stored_url := "https://files/config" |}] |}.

Definition sameFiles : VersionInput string :=
  {| ver_id := Some 4; ver_name := "v1";
     ver_files :=
       Some [{| in_type := Some "Model"; in_url := "https://files/model-v1";
                in_name := "model.safetensors"; in_sizeKB := 2048 |};
             {| in_type := None; in_url := "https://files/notes";
                in_name := "notes.txt"; in_sizeKB := 1 |}] |}.

Definition newVersion : VersionInput string :=
  {| ver_id := None; ver_name := "v2";
     ver_files :=
       Some [{| in_type := Some "Model"; in_url := "https://files/model-v2";
                in_name := "model.safetensors"; in_sizeKB := 2048 |}] |}.

(** ** Collaborators and sample stores *)

(** Modelled from the spec: [listFilesByEntity(entityId, entityType)] of the
    file service ([getFilesByEntity]) returns the descriptors of the files
    tagged with the entity. *)
Definition listFilesByEntity (entityId : Z) (entityType : string) (d : DB)
    : list (Z * File) :=
  map_to_list (filter (λ kv, file_attached entityId entityType kv.2) (file d)).

(** Modelled from the spec: [attachFiles] of the file service
    ([updateEntityFiles]) makes the given files the files tagged with the
    entity. *)
Definition attachFiles (entityId : Z) (entityType : string)
    (files : list (Z * File)) (table : gmap Z File) : Result (gmap Z File) :=
  Ok (list_to_map files
      ∪ filter (λ kv, ¬ file_attached entityId entityType kv.2) table).

(** Modelled from the spec: [attachImages] of the image service
    ([createEntityImages]) stores the given images and connects them to the
    entity. *)
Definition attachImages (images : list (Z * Image)) (userId entityId : Z)
    (entityType : string) (tables : list ImageConnection * gmap Z Image)
    : Result (list ImageConnection * gmap Z Image) :=
  Ok (((λ i : Z * Image, mkImageConnection i.1 entityId entityType)
         <$> images) ++ tables.1,
      list_to_map images ∪ tables.2).

(** A ledger that completes every transfer, and one that refuses every
    transfer. *)
Definition ledgerCompletes (_ : list Call) (_ : BuzzTransaction) : bool :=
  true.

Definition ledgerRefuses (_ : list Call) (_ : BuzzTransaction) : bool :=
  false.

Definition sampleFile : File :=
  {| file_name := "model.zip"; file_url := Some "https://files/5";
     file_sizeKB := 2048;
     file_metadata := {| benefactorsOnly := None; unlockAmount := Some 100 |};
     file_entityId := 10; file_entityType := "BountyEntry" |}.

(** The scenario of the spec: bounty 1 with the benefactors 101 and 102,
    each pledging 50 BUZZ, and entry 10 owned by user 7; the entry has one
    file, unlocked at 100, and one image. *)
Definition scenario : World :=
  {| db :=
       {| bounty := {[ 1 := {| complete := false |} ]};
          bountyEntry :=
            {[ 10 := {| entry_bountyId := 1; entry_userId := Some 7;
                        entry_description := "E" |} ]};
          bountyBenefactor :=
            {[ (1, 101) := {| unitAmount := 50; currency := Currency.BUZZ;
                              awardedToId := None; awardedAt := None |};
               (1, 102) := {| unitAmount := 50; currency := Currency.BUZZ;
                              awardedToId := None; awardedAt := None |} ]};
          file := {[ 5 := sampleFile ]};
          imageConnection :=
            [{| imageId := 3; conn_entityId := 10;
                conn_entityType := "BountyEntry" |}];
          image := {[ 3 := {| image_url := "https://images/3";
                              image_userId := 7 |} ]} |};
     calls := [] |}.

(** The same bounty funded in USD: benefactor 101 has awarded its 100 USD
    to entry 10. *)
Definition usd_awarded : World :=
  {| db :=
       {| bounty := {[ 1 := {| complete := false |} ]};
          bountyEntry :=
            {[ 10 := {| entry_bountyId := 1; entry_userId := Some 7;
                        entry_description := "E" |} ]};
          bountyBenefactor :=
            {[ (1, 101) := {| unitAmount := 100; currency := Currency.USD;
                              awardedToId := Some 10;
                              awardedAt := Some 900 |};
               (1, 102) := {| unitAmount := 100; currency := Currency.USD;
                              awardedToId := None; awardedAt := None |} ]};
          file := {[ 5 := sampleFile ]};
          imageConnection := [];
          image := ∅ |};
     calls := [] |}.

(** An entry whose owner was removed. *)
Definition ownerless : World :=
  {| db :=
       {| bounty := {[ 1 := {| complete := false |} ]};
          bountyEntry :=
            {[ 10 := {| entry_bountyId := 1; entry_userId := None;
                        entry_description := "E" |} ]};
          bountyBenefactor :=
            {[ (1, 101) := {| unitAmount := 50; currency := Currency.BUZZ;
                              awardedToId := None; awardedAt := None |} ]};
          file := ∅; imageConnection := []; image := ∅ |};
     calls := [] |}.

(** A store without rows. *)
Definition empty_world : World :=
  {| db := {| bounty := ∅; bountyEntry := ∅; bountyBenefactor := ∅;
              file := ∅; imageConnection := []; image := ∅ |};
     calls := [] |}.

Section Service.

(** The collaborators whose code is not part of this service.  The file and
    image services work on their own tables; the buzz service either
    completes a transfer or throws. *)
Variable FilesInput ImagesInput : Type.
Variable updateEntityFiles :
  Z → string → FilesInput → gmap Z File → Result (gmap Z File).
Variable createEntityImages :
  ImagesInput → Z → Z → string →
  list ImageConnection * gmap Z Image →
  Result (list ImageConnection * gmap Z Image).
Variable getFilesByEntity : Z → string → DB → list (Z * File).
Variable ledgerAccepts : list Call → BuzzTransaction → bool.

(** Modelled from the spec: [updateEntityFiles] of the file service
    ([attachFiles]) works on the entity-tagged file table, inside the
    caller's transaction, and may throw. *)
Definition run_updateEntityFiles (entityId : Z) (entityType : string)
    (files : FilesInput) : M unit :=
  λ w,
    let issued := calls w ++ [updateEntityFiles_call entityId entityType] in
    match updateEntityFiles entityId entityType files (file (db w)) with
    | Ok files' => (Ok tt, {| db := set_file (λ _, files') (db w);
                              calls := issued |})
    | Err e => (Err e, {| db := db w; calls := issued |})
    end.

(** Modelled from the spec: [createEntityImages] of the image service
    ([attachImages]) works on the image and image connection tables, inside
    the caller's transaction, and may throw. *)
Definition run_createEntityImages (images : ImagesInput) (userId : Z)
    (entityId : Z) (entityType : string) : M unit :=
  λ w,
    let issued := calls w ++ [createEntityImages_call entityId entityType] in
    match createEntityImages images userId entityId entityType
            (imageConnection (db w), image (db w)) with
    | Ok (conns, images') =>
        (Ok tt, {| db := set_image (λ _, images')
                           (set_imageConnection (λ _, conns) (db w));
                   calls := issued |})
    | Err e => (Err e, {| db := db w; calls := issued |})
    end.

(** Modelled from the spec: [createBuzzTransaction] of the buzz service, the
    Payment Ledger's [transfer], is synchronous and either completes the
    transfer or throws; the ledger is external and a transaction of the
    database does not undo the call. *)
Definition createBuzzTransaction (t : BuzzTransaction) : M unit :=
  λ w,
    let w' := {| db := db w;
                 calls := calls w ++ [createBuzzTransaction_call t] |} in
    if ledgerAccepts (calls w) t then (Ok tt, w') else (Err LedgerError, w').

(** [if (x) { await k(x) }] for an optional argument. *)
Definition when {A} (x : option A) (k : A → M unit) : M unit :=
  match x with
  | Some a => k a
  | None => ret tt
  end.

(** [upsertBountyEntry]: with a truthy [id] the entry is updated, otherwise
    one is created; the test [if (!entry) return null] is never taken, since
    [update] returns the row or throws. *)
Definition upsertBountyEntry (id : option Z) (bountyId : Z)
    (files : option FilesInput) (images : option ImagesInput)
    (description : string) (userId : Z) : M (option (Z * BountyEntry)) :=
  transaction (
    if truthy id then
      let id' := default 0 id in
      let! entry := bountyEntry_update id' description in
      do! when files (run_updateEntityFiles id' "BountyEntry") in
      do! when images
            (λ images', run_createEntityImages images' userId id'
                          "BountyEntry") in
      ret (Some (id', entry))
    else
      let! entry := bountyEntry_create bountyId userId description in
      do! when files (run_updateEntityFiles entry.1 "BountyEntry") in
      do! when images
            (λ images', run_createEntityImages images' userId entry.1
                          "BountyEntry") in
      ret (Some entry)).

(** The callback of the transaction of [awardBountyEntry]; it returns the
    key of the benefactor with the updated row. *)
Definition awardBountyEntry_tx (id userId now : Z)
    : M (Z * Z * BountyBenefactor) :=
  let! found := bountyEntry_findUniqueOrThrow_bounty id in
  let '(entry, parent) := found in
  if negb (truthy (entry_userId entry))
  then throwBadRequestError "Entry has no user."
  else if complete parent
  then throwBadRequestError "Bounty is already complete."
  else
    let! benefactor :=
      bountyBenefactor_findUniqueOrThrow (entry_bountyId entry) userId in
    if truthy (awardedToId benefactor)
    then throwBadRequestError "Supporters has already awarded an entry."
    else
      let! updatedBenefactor :=
        bountyBenefactor_update (entry_bountyId entry) userId id now in
      do! match currency updatedBenefactor with
          | Currency.BUZZ =>
              createBuzzTransaction
                {| fromAccountId := 0;
                   toAccountId := default 0 (entry_userId entry);
                   amount := unitAmount updatedBenefactor;
                   type := TransactionType.Bounty;
                   tx_description :=
                     "Reason: Bounty entry has been awarded!" |}
          | _ => ret tt
          end in
      ret (entry_bountyId entry, userId, updatedBenefactor).

(** [awardBountyEntry]: the transaction, then the completion check, which
    runs after the commit.  [now] is the value of [new Date()]. *)
Definition awardBountyEntry (id userId now : Z)
    : M (Z * Z * BountyBenefactor) :=
  let! benefactor := transaction (awardBountyEntry_tx id userId now) in
  let! unawardedBountyBenefactors :=
    bountyBenefactor_findFirst_unawarded benefactor.1.1 in
  do! match unawardedBountyBenefactors with
      | None => bounty_update_complete benefactor.1.1
      | Some _ => ret tt
      end in
  ret benefactor.

(** The value of [hasFullAccess] for one file. *)
Definition hasFullAccess (entryId : Z) (benefactor : option BountyBenefactor)
    (awarded : Z) (details : BountyEntryFileMeta) : bool :=
  let granted :=
    if default false (benefactorsOnly details)
    then bool_decide ((benefactor ≫= awardedToId) = Some entryId)
    else true in
  if awarded <? default 0 (unlockAmount details) then false else granted.

(** [getBountyEntryFilteredFiles]: [userId] is optional, and
    [bountyEntry.userId === userId] holds only for two equal numbers. *)
Definition getBountyEntryFilteredFiles (id : Z) (userId : option Z)
    (isModerator : bool) : M (list (Z * File)) :=
  let! bountyEntry := bountyEntry_findUniqueOrThrow id in
  let! files := read (getFilesByEntity id "BountyEntry") in
  if bool_decide (is_Some userId ∧ entry_userId bountyEntry = userId)
     || isModerator
  then ret files
  else
    let! benefactor :=
      if truthy userId
      then bountyBenefactor_findUnique (entry_bountyId bountyEntry)
             (default 0 userId)
      else ret None in
    let! rows :=
      getBountyEntryEarnedBuzz [id] (Some (default Currency.BUZZ
                                             (currency <$> benefactor))) in
    match rows with
    | [] => throw TypeError
    | awardedBounty :: _ =>
        ret ((λ f : Z * File,
                (f.1,
                 {| file_name := file_name f.2;
                    file_url :=
                      if hasFullAccess id benefactor awardedBounty.2
                           (file_metadata f.2)
                      then file_url f.2 else None;
                    file_sizeKB := file_sizeKB f.2;
                    file_metadata := file_metadata f.2;
                    file_entityId := file_entityId f.2;
                    file_entityType := file_entityType f.2 |})) <$> files)
    end.

(** [deleteBountyEntry]: the tests [if (!entry)] and
    [if (!deletedBountyEntry)] are never taken, since [findUniqueOrThrow] and
    [delete] return the row or throw. *)
Definition deleteBountyEntry (id : Z) : M (option BountyEntry) :=
  let! entry := bountyEntry_findUniqueOrThrow_bounty id in
  let! rows := getBountyEntryEarnedBuzz [id] None in
  match rows with
  | [] => throw TypeError
  | award :: _ =>
      if 0 <? award.2
      then throwBadRequestError
             "This bounty entry has been awarded by some users and as such, cannot be deleted."
      else
        transaction (
          let! deletedBountyEntry := bountyEntry_delete id in
          do! file_deleteMany id "BountyEntry" in
          let! images := imageConnection_findMany id "BountyEntry" in
          do! imageConnection_deleteMany id "BountyEntry" in
          do! image_deleteMany images in
          ret (Some deletedBountyEntry))
  end.

(** ** The workflow as a set of operations *)

Inductive Operation :=
  | Upsert (id : option Z) (bountyId : Z) (files : option FilesInput)
      (images : option ImagesInput) (description : string) (userId : Z)
  | Award (id userId now : Z)
  | ListFiles (id : Z) (userId : option Z) (isModerator : bool)
  | Delete (id : Z).

(** The world after one operation, whether it returned or threw. *)
Definition step (w : World) (op : Operation) : World :=
  match op with
  | Upsert id bountyId files images description userId =>
      (upsertBountyEntry id bountyId files images description userId w).2
  | Award id userId now => (awardBountyEntry id userId now w).2
  | ListFiles id userId isModerator =>
      (getBountyEntryFilteredFiles id userId isModerator w).2
  | Delete id => (deleteBountyEntry id w).2
  end.

Definition steps (w : World) (ops : list Operation) : World :=
  foldl step w ops.

Definition error_of {A} (r : Result A) : option Error :=
  match r with
  | Ok _ => None
  | Err e => Some e
  end.

(** The error with which one operation fails, if it does. *)
Definition outcome (w : World) (op : Operation) : option Error :=
  match op with
  | Upsert id bountyId files images description userId =>
      error_of
        (upsertBountyEntry id bountyId files images description userId w).1
  | Award id userId now => error_of (awardBountyEntry id userId now w).1
  | ListFiles id userId isModerator =>
      error_of (getBountyEntryFilteredFiles id userId isModerator w).1
  | Delete id => error_of (deleteBountyEntry id w).1
  end.

(** ** Words of the spec, for comparison with the code *)

(** The spec's "sum of awarded pledge amounts" of an entry, and its
    "cumulative awarded amount": the pledges of all benefactors awarded to
    the entry. *)
Definition awardedFunds (d : DB) (entryId : Z) : Z :=
  map_fold
    (λ _ b acc,
       if decide (awardedToId b = Some entryId) then unitAmount b + acc
       else acc)
    0 (bountyBenefactor d).

(** ** Notions used to state the properties *)

(** The benefactor row read for the caller of the file listing, if any. *)
Definition callerBenefactor (userId : option Z) (entry : BountyEntry)
    (d : DB) : option BountyBenefactor :=
  match userId with
  | Some u =>
      if decide (u = 0) then None
      else bountyBenefactor d !! (entry_bountyId entry, u)
  | None => None
  end.

(** A file descriptor with its URL replaced by null. *)
Definition without_url (f : File) : File :=
  {| file_name := file_name f; file_url := None;
     file_sizeKB := file_sizeKB f; file_metadata := file_metadata f;
     file_entityId := file_entityId f;
     file_entityType := file_entityType f |}.

(** The transfer issued for an awarded benefactor row of an entry. *)
Definition bountyTransfer (entry : BountyEntry) (b : BountyBenefactor)
    : BuzzTransaction :=
  {| fromAccountId := 0;
     toAccountId := default 0 (entry_userId entry);
     amount := unitAmount b;
     type := TransactionType.Bounty;
     tx_description := "Reason: Bounty entry has been awarded!" |}.

(** The ledger calls of one award: one transfer for a BUZZ pledge, none
    for any other currency. *)
Definition payout (entry : BountyEntry) (b : BountyBenefactor) : list Call :=
  match currency b with
  | Currency.BUZZ => [createBuzzTransaction_call (bountyTransfer entry b)]
  | _ => []
  end.

(** The database after the benefactor [(bountyId, userId)] is linked to
    the entry [id]. *)
Definition linked (bountyId userId id now : Z) (old : BountyBenefactor)
    (d : DB) : DB :=
  set_bountyBenefactor
    (insert (bountyId, userId) (awardedRow id now old)) d.

(** What holds of the state in which the transaction of an award
    commits. *)
Record Awardable (id userId : Z) (w : World) (entry : BountyEntry)
    (parent : Bounty) (old : BountyBenefactor) : Prop := {
  awardable_entry : bountyEntry (db w) !! id = Some entry;
  awardable_bounty : bounty (db w) !! entry_bountyId entry = Some parent;
  awardable_owner : truthy (entry_userId entry) = true;
  awardable_open : complete parent = false;
  awardable_benefactor :
    bountyBenefactor (db w) !! (entry_bountyId entry, userId) = Some old;
  awardable_unawarded : truthy (awardedToId old) = false;
}.

(** No benefactor of the bounty has [awardedToId = null]. *)
Definition allAwarded (bountyId : Z) (d : DB) : Prop :=
  ∀ userId b,
    bountyBenefactor d !! (bountyId, userId) = Some b → awardedToId b ≠ None.

(** The database after the bounty is marked complete. *)
Definition completed (bountyId : Z) (d : DB) : DB :=
  set_bounty (insert bountyId {| complete := true |}) d.

(** The database after the transaction of [deleteBountyEntry]. *)
Definition deleted (id : Z) (d : DB) : DB :=
  let images :=
    imageId <$> filter (conn_attached id "BountyEntry") (imageConnection d) in
  set_image (filter (λ kv, kv.1 ∉ images))
    (set_imageConnection (filter (λ c, ¬ conn_attached id "BountyEntry" c))
       (set_file (filter (λ kv, ¬ file_attached id "BountyEntry" kv.2))
          (set_bountyEntry (delete id) d))).

Definition deletion_calls (id : Z) (d : DB) : list Call :=
  [bountyEntry_delete_call id;
   file_deleteMany_call id "BountyEntry";
   imageConnection_deleteMany_call id "BountyEntry";
   image_deleteMany_call
     (imageId <$>
        filter (conn_attached id "BountyEntry") (imageConnection d))].

(** A bounty marked complete has no benefactor left to award. *)
Definition completeMeansAwarded (d : DB) : Prop :=
  ∀ bountyId b,
    bounty d !! bountyId = Some b → complete b = true →
    allAwarded bountyId d.

(** The scenario with a second file that only benefactors may fetch. *)
Definition restrictedFile : File :=
  {| file_name := "weights.zip"; file_url := Some "https://files/6";
     file_sizeKB := 4096;
     file_metadata := {| benefactorsOnly := Some true; unlockAmount := None |};
     file_entityId := 10; file_entityType := "BountyEntry" |}.

Definition restricted : World :=
  {| db := set_file (insert 6 restrictedFile) (db scenario); calls := [] |}.

(** * Properties *)

Ltac unfold_calls :=
  unfold bountyEntry_findUniqueOrThrow_bounty, bountyEntry_findUniqueOrThrow,
    bountyEntry_update, bountyEntry_create, bountyEntry_delete,
    bountyBenefactor_findUniqueOrThrow, bountyBenefactor_findUnique,
    bountyBenefactor_update, bountyBenefactor_findFirst_unawarded,
    bounty_update_complete, file_deleteMany, imageConnection_findMany,
    imageConnection_deleteMany, image_deleteMany, getBountyEntryEarnedBuzz,
    createBuzzTransaction, run_updateEntityFiles, run_createEntityImages,
    throwBadRequestError, when, transaction, bind, ret, throw, read, write
    in *.

Lemma world_eta (w : World) : {| db := db w; calls := calls w |} = w.
Proof. by destruct w. Qed.

(** The transaction of [awardBountyEntry] on an entry of a complete
    bounty. *)
Lemma awardBountyEntry_tx_complete id userId now w entry parent :
  bountyEntry (db w) !! id = Some entry →
  bounty (db w) !! entry_bountyId entry = Some parent →
  complete parent = true →
  ∃ message, awardBountyEntry_tx id userId now w = (Err (BadRequest message), w).
Proof.
  intros He Hb Hc. unfold awardBountyEntry_tx. unfold_calls. simpl.
  rewrite He. simpl. rewrite Hb. simpl.
  destruct (truthy (entry_userId entry)); simpl; [rewrite Hc|]; eauto.
Qed.

Lemma bind_eq {A B} (m : M A) (k : A → M B) w :
  bind m k w =
    match m w with
    | (Ok a, w') => k a w'
    | (Err e, w') => (Err e, w')
    end.
Proof. done. Qed.

Lemma bountyEntry_findUniqueOrThrow_eq id w :
  bountyEntry_findUniqueOrThrow id w =
    match bountyEntry (db w) !! id with
    | Some entry => (Ok entry, w)
    | None => (Err NotFoundError, w)
    end.
Proof.
  unfold bountyEntry_findUniqueOrThrow, bind, read. simpl.
  by destruct (bountyEntry (db w) !! id).
Qed.

Lemma bountyEntry_findUniqueOrThrow_bounty_eq id w :
  bountyEntry_findUniqueOrThrow_bounty id w =
    match bountyEntry (db w) !! id with
    | Some entry =>
        match bounty (db w) !! entry_bountyId entry with
        | Some b => (Ok (entry, b), w)
        | None => (Err InconsistentResult, w)
        end
    | None => (Err NotFoundError, w)
    end.
Proof.
  unfold bountyEntry_findUniqueOrThrow_bounty.
  rewrite bind_eq, bountyEntry_findUniqueOrThrow_eq.
  destruct (bountyEntry (db w) !! id) as [entry|]; [|done].
  unfold bind, read. simpl.
  by destruct (bounty (db w) !! entry_bountyId entry).
Qed.

Lemma awardBountyEntry_tx_Ok id userId now w r w' :
  awardBountyEntry_tx id userId now w = (Ok r, w') →
  ∃ entry parent old,
    Awardable id userId w entry parent old
    ∧ r = (entry_bountyId entry, userId, awardedRow id now old)
    ∧ db w' = linked (entry_bountyId entry) userId id now old (db w)
    ∧ calls w' =
        calls w ++ bountyBenefactor_update_call (entry_bountyId entry) userId
                   :: payout entry old.
Proof.
  unfold awardBountyEntry_tx. unfold_calls. simpl.
  destruct (bountyEntry (db w) !! id) as [entry|] eqn:He; simpl; [|done].
  destruct (bounty (db w) !! entry_bountyId entry) as [parent|] eqn:Hb;
    simpl; [|done].
  destruct (truthy (entry_userId entry)) eqn:Hu; simpl; [|done].
  destruct (complete parent) eqn:Hc; simpl; [done|].
  destruct (bountyBenefactor (db w) !! (entry_bountyId entry, userId))
    as [old|] eqn:Hbb; simpl; [|done].
  destruct (truthy (awardedToId old)) eqn:Ha; simpl; [done|].
  intros H. exists entry, parent, old. split; [by constructor|].
  rewrite Hbb in H. simpl in H.
  unfold payout, bountyTransfer, linked.
  destruct (currency old); simpl in *.
  - by inversion H; subst.
  - destruct (ledgerAccepts _ _); inversion H; subst; simpl.
    by rewrite <- app_assoc.
Qed.

Lemma awardBountyEntry_tx_Awardable id userId now w entry parent old :
  Awardable id userId w entry parent old →
  (currency old = Currency.BUZZ →
   ledgerAccepts
     (calls w ++ [bountyBenefactor_update_call (entry_bountyId entry) userId])
     (bountyTransfer entry old) = true) →
  awardBountyEntry_tx id userId now w =
    (Ok (entry_bountyId entry, userId, awardedRow id now old),
     {| db := linked (entry_bountyId entry) userId id now old (db w);
        calls := calls w
                 ++ bountyBenefactor_update_call (entry_bountyId entry) userId
                    :: payout entry old |}).
Proof.
  intros [He Hb Hu Hc Hbb Ha] Hl.
  unfold awardBountyEntry_tx. unfold_calls. simpl.
  rewrite He. simpl. rewrite Hb. simpl. rewrite Hu, Hc. simpl.
  rewrite Hbb. simpl. rewrite Ha. simpl. rewrite Hbb. simpl.
  unfold payout, bountyTransfer, linked in *.
  destruct (currency old); simpl in *; [done|].
  rewrite Hl by done. by rewrite <- app_assoc.
Qed.

(** A failed transaction leaves the database as it was. *)
Lemma transaction_Err {A} (m : M A) w e w' :
  transaction m w = (Err e, w') → db w' = db w.
Proof.
  unfold transaction. destruct (m w) as [[a|e'] w1]; [done|].
  by intros [= _ <-].
Qed.

Lemma transaction_Ok {A} (m : M A) w a w' :
  transaction m w = (Ok a, w') → m w = (Ok a, w').
Proof.
  unfold transaction. destruct (m w) as [[a'|e'] w1]; [|done].
  by intros [= <- <-].
Qed.

Lemma findFirst_unawarded_None bountyId w :
  (bountyBenefactor_findFirst_unawarded bountyId w).1 = Ok None
  ↔ unawarded bountyId (db w) = ∅.
Proof.
  unfold bountyBenefactor_findFirst_unawarded, read. simpl.
  rewrite <- map_to_list_empty_iff.
  destruct (map_to_list (unawarded bountyId (db w))); simpl; split;
    congruence.
Qed.

Lemma unawarded_empty bountyId d :
  unawarded bountyId d = ∅ ↔ allAwarded bountyId d.
Proof.
  unfold unawarded, allAwarded. rewrite map_empty. split.
  - intros H userId b Hb Hn.
    specialize (H (bountyId, userId)).
    rewrite map_lookup_filter_None in H.
    destruct H as [H|H]; [congruence|]. by apply (H b).
  - intros H [bid uid]. rewrite map_lookup_filter_None. right.
    intros b Hb [Hk Hn]. simpl in *. subst. by apply (H uid b).
Qed.

Lemma awardBountyEntry_Ok id userId now w r w' :
  awardBountyEntry id userId now w = (Ok r, w') →
  ∃ entry parent old,
    Awardable id userId w entry parent old
    ∧ r = (entry_bountyId entry, userId, awardedRow id now old)
    ∧ let bid := entry_bountyId entry in
      let d1 := linked bid userId id now old (db w) in
      let issued :=
        calls w ++ bountyBenefactor_update_call bid userId
                   :: payout entry old in
      (allAwarded bid d1 ∧ db w' = completed bid d1
       ∧ calls w' = issued ++ [bounty_update_call bid])
      ∨ (¬ allAwarded bid d1 ∧ db w' = d1 ∧ calls w' = issued).
Proof.
  unfold awardBountyEntry. unfold bind at 1.
  destruct (transaction _ w) as [[a|e] w1] eqn:Htx; [|done].
  apply transaction_Ok, awardBountyEntry_tx_Ok in Htx
    as (entry & parent & old & Haw & -> & Hdb & Hcalls).
  intros H. exists entry, parent, old. split; [done|]. simpl in *.
  unfold bind in H.
  pose proof (findFirst_unawarded_None (entry_bountyId entry) w1) as Hff.
  rewrite unawarded_empty, Hdb in Hff.
  unfold bountyBenefactor_findFirst_unawarded, read in *. simpl in *.
  destruct (head _) as [first|]; simpl in *.
  - unfold ret in H. inversion H; subst. split; [done|]. right.
    split; [|done]. intros Hall. apply Hff in Hall. done.
  - unfold bounty_update_complete in H. unfold_calls. simpl in *.
    rewrite Hdb in H. simpl in H.
    rewrite (awardable_bounty _ _ _ _ _ _ Haw) in H. simpl in H.
    inversion H; subst. split; [done|]. left. simpl.
    split; [by apply Hff|]. by rewrite Hdb, Hcalls.
Qed.

Lemma awardBountyEntry_Err id userId now w e w' :
  awardBountyEntry id userId now w = (Err e, w') → db w' = db w.
Proof.
  unfold awardBountyEntry. unfold bind at 1.
  destruct (transaction _ w) as [[a|e1] w1] eqn:Htx.
  - apply transaction_Ok, awardBountyEntry_tx_Ok in Htx
      as (entry & parent & old & Haw & -> & Hdb & Hcalls).
    unfold_calls. simpl.
    destruct (head _); simpl; [done|].
    rewrite Hdb. simpl. by rewrite (awardable_bounty _ _ _ _ _ _ Haw).
  - intros [= <- <-]. by apply transaction_Err in Htx.
Qed.

(** An award that meets the preconditions commits and returns. *)
Lemma awardBountyEntry_succeeds id userId now w entry parent old :
  Awardable id userId w entry parent old →
  (currency old = Currency.BUZZ →
   ledgerAccepts
     (calls w ++ [bountyBenefactor_update_call (entry_bountyId entry) userId])
     (bountyTransfer entry old) = true) →
  ∃ w', awardBountyEntry id userId now w =
          (Ok (entry_bountyId entry, userId, awardedRow id now old), w').
Proof.
  intros Haw Hl. unfold awardBountyEntry, transaction.
  rewrite bind_eq, (awardBountyEntry_tx_Awardable _ _ _ _ _ _ _ Haw Hl).
  unfold_calls. simpl. destruct (head _); simpl; [by eexists|].
  rewrite (awardable_bounty _ _ _ _ _ _ Haw). by eexists.
Qed.

(** *** Deletion *)

Lemma getBountyEntryEarnedBuzz_single id cur w entry :
  bountyEntry (db w) !! id = Some entry →
  getBountyEntryEarnedBuzz [id] cur w =
    (Ok [(id, awardedUnitAmount (db w) id (default Currency.BUZZ cur))], w).
Proof.
  intros He. unfold getBountyEntryEarnedBuzz, read. simpl.
  by rewrite He.
Qed.

(** [deleteBountyEntry] by cases on the state it runs in. *)
Lemma deleteBountyEntry_eq id w :
  deleteBountyEntry id w =
    match bountyEntry (db w) !! id with
    | None => (Err NotFoundError, w)
    | Some entry =>
        match bounty (db w) !! entry_bountyId entry with
        | None => (Err InconsistentResult, w)
        | Some _ =>
            if 0 <? awardedUnitAmount (db w) id Currency.BUZZ
            then (Err (BadRequest
                    "This bounty entry has been awarded by some users and as such, cannot be deleted."),
                  w)
            else (Ok (Some entry),
                  {| db := deleted id (db w);
                     calls := calls w ++ deletion_calls id (db w) |})
        end
    end.
Proof.
  unfold deleteBountyEntry.
  rewrite bind_eq, bountyEntry_findUniqueOrThrow_bounty_eq.
  destruct (bountyEntry (db w) !! id) as [entry|] eqn:He; [|done].
  destruct (bounty (db w) !! entry_bountyId entry) as [parent|]; [|done].
  rewrite bind_eq, (getBountyEntryEarnedBuzz_single _ _ _ entry He).
  simpl. destruct (0 <? _); [done|].
  unfold_calls. simpl. rewrite He. simpl.
  unfold deleted, deletion_calls. simpl.
  by rewrite <- !app_assoc.
Qed.

Lemma deleteBountyEntry_Err id w e w' :
  deleteBountyEntry id w = (Err e, w') → w' = w.
Proof.
  rewrite deleteBountyEntry_eq.
  destruct (bountyEntry (db w) !! id) as [entry|]; [|by intros [= _ <-]].
  destruct (bounty (db w) !! _); [|by intros [= _ <-]].
  destruct (0 <? _); [by intros [= _ <-]|done].
Qed.

(** *** Upsert and listing *)

(** [upsertBountyEntry] writes neither bounties nor benefactors. *)
Lemma upsertBountyEntry_frame id bountyId files images description userId w :
  let w' :=
    (upsertBountyEntry id bountyId files images description userId w).2 in
  bounty (db w') = bounty (db w)
  ∧ bountyBenefactor (db w') = bountyBenefactor (db w).
Proof.
  unfold upsertBountyEntry. unfold_calls. simpl.
  repeat (case_match; simplify_eq/=); done.
Qed.

(** [getBountyEntryFilteredFiles] only reads. *)
Lemma getBountyEntryFilteredFiles_reads id userId isModerator w :
  (getBountyEntryFilteredFiles id userId isModerator w).2 = w.
Proof.
  unfold getBountyEntryFilteredFiles. unfold_calls. simpl.
  repeat (case_match; simplify_eq/=); done.
Qed.

Lemma deleteBountyEntry_frame id w :
  let w' := (deleteBountyEntry id w).2 in
  bounty (db w') = bounty (db w)
  ∧ bountyBenefactor (db w') = bountyBenefactor (db w).
Proof.
  rewrite deleteBountyEntry_eq. repeat case_match; done.
Qed.

(** *** One operation at a time *)

Lemma awardBountyEntry_db id userId now w :
  let w' := (awardBountyEntry id userId now w).2 in
  db w' = db w
  ∨ ∃ entry parent old,
      Awardable id userId w entry parent old
      ∧ (db w' = linked (entry_bountyId entry) userId id now old (db w)
         ∨ db w' = completed (entry_bountyId entry)
                     (linked (entry_bountyId entry) userId id now old (db w))).
Proof.
  simpl. destruct (awardBountyEntry id userId now w) as [[r|e] w'] eqn:H.
  - apply awardBountyEntry_Ok in H
      as (entry & parent & old & Haw & _ & [(_ & Hdb & _)|(_ & Hdb & _)]);
      right; exists entry, parent, old; eauto.
  - left. by eapply awardBountyEntry_Err.
Qed.

Lemma truthy_Some_nonzero e : e ≠ 0 → truthy (Some e) = true.
Proof. intros He. simpl. by apply negb_true_iff, Z.eqb_neq. Qed.

Lemma truthy_true x : truthy x = true → ∃ n, x = Some n ∧ n ≠ 0.
Proof.
  destruct x as [n|]; [|done]. simpl. intros H%negb_true_iff%Z.eqb_neq.
  eauto.
Qed.

(** One operation changes a bounty row at most from incomplete to
    complete. *)
Lemma step_bounty w op id b :
  bounty (db w) !! id = Some b →
  ∃ b', bounty (db (step w op)) !! id = Some b'
        ∧ (b' = b ∨ (complete b = false ∧ complete b' = true)).
Proof.
  intros Hb. destruct op as [eid bid files images descr uid|eid uid now| |eid];
    simpl.
  - destruct (upsertBountyEntry_frame eid bid files images descr uid w)
      as [-> _]. eauto.
  - destruct (awardBountyEntry_db eid uid now w)
      as [->|(entry & parent & old & Haw & [->| ->])]; simpl; eauto.
    destruct (decide (entry_bountyId entry = id)) as [<-|Hne].
    + rewrite lookup_insert_eq. eexists; split; [done|]. right.
      rewrite (awardable_bounty _ _ _ _ _ _ Haw) in Hb.
      injection Hb as <-. split; [|done].
      by apply (awardable_open _ _ _ _ _ _ Haw).
    + rewrite lookup_insert_ne by done. eauto.
  - rewrite getBountyEntryFilteredFiles_reads. eauto.
  - destruct (deleteBountyEntry_frame eid w) as [-> _]. eauto.
Qed.

(** One operation leaves an awarded benefactor row as it is. *)
Lemma step_benefactor w op k b e :
  bountyBenefactor (db w) !! k = Some b →
  awardedToId b = Some e → e ≠ 0 →
  bountyBenefactor (db (step w op)) !! k = Some b.
Proof.
  intros Hb Ha He.
  destruct op as [eid bid files images descr uid|eid uid now| |eid]; simpl.
  - by destruct (upsertBountyEntry_frame eid bid files images descr uid w)
      as [_ ->].
  - destruct (awardBountyEntry_db eid uid now w)
      as [->|(entry & parent & old & Haw & Hdb)]; [done|].
    assert (k ≠ (entry_bountyId entry, uid)) as Hne.
    { intros ->. rewrite (awardable_benefactor _ _ _ _ _ _ Haw) in Hb.
      injection Hb as <-.
      pose proof (awardable_unawarded _ _ _ _ _ _ Haw) as Hf.
      rewrite Ha, truthy_Some_nonzero in Hf; done. }
    destruct Hdb as [-> | ->]; simpl; by rewrite lookup_insert_ne.
  - by rewrite getBountyEntryFilteredFiles_reads.
  - by destruct (deleteBountyEntry_frame eid w) as [_ ->].
Qed.

(** *** Awarding *)

(** Once the caller's row is linked, the other benefactors decide whether
    every pledge of the bounty is awarded. *)
Lemma allAwarded_linked bountyId userId id now old d :
  allAwarded bountyId (linked bountyId userId id now old d)
  ↔ ∀ u b, u ≠ userId →
           bountyBenefactor d !! (bountyId, u) = Some b →
           awardedToId b ≠ None.
Proof.
  unfold allAwarded, linked. simpl. split.
  - intros H u b Hne Hb. apply (H u b).
    rewrite lookup_insert_ne; [done|congruence].
  - intros H u b. destruct (decide (u = userId)) as [->|Hne].
    + rewrite lookup_insert_eq. by intros [= <-].
    + rewrite lookup_insert_ne by congruence. by apply H.
Qed.

(** C1. A successful [awardBountyEntry id userId] finds the entry, its
    owner and the benefactor row of [(bounty of the entry, userId)], and
    leaves that row with [awardedToId = id] and [awardedAt = now].  The
    calls it issues start with the benefactor update; for a BUZZ pledge
    exactly one [createBuzzTransaction] follows it, of [unitAmount] from
    account 0 to the owner's account with type [Bounty]; for any other
    currency no ledger call is issued.  The only call that may come after
    is the update that marks the bounty complete. *)
Theorem awardBountyEntry_links_and_pays id userId now w r w' :
  awardBountyEntry id userId now w = (Ok r, w') →
  ∃ entry owner old,
    bountyEntry (db w) !! id = Some entry
    ∧ entry_userId entry = Some owner
    ∧ bountyBenefactor (db w) !! (entry_bountyId entry, userId) = Some old
    ∧ bountyBenefactor (db w') !! (entry_bountyId entry, userId) =
        Some {| unitAmount := unitAmount old; currency := currency old;
                awardedToId := Some id; awardedAt := Some now |}
    ∧ ∃ closing,
        calls w' =
          calls w
          ++ bountyBenefactor_update_call (entry_bountyId entry) userId
             :: match currency old with
                | Currency.BUZZ =>
                    [createBuzzTransaction_call
                       {| fromAccountId := 0;
                          toAccountId := owner;
                          amount := unitAmount old;
                          type := TransactionType.Bounty;
                          tx_description :=
                            "Reason: Bounty entry has been awarded!" |}]
                | _ => []
                end
             ++ closing
        ∧ (closing = []
           ∨ closing = [bounty_update_call (entry_bountyId entry)]).
Proof.
  intros H. apply awardBountyEntry_Ok in H
    as (entry & parent & old & Haw & _ & Hpost).
  destruct (truthy_true _ (awardable_owner _ _ _ _ _ _ Haw))
    as (owner & Ho & _).
  exists entry, owner, old.
  split; [apply Haw|]. split; [done|]. split; [apply Haw|].
  assert (payout entry old =
          match currency old with
          | Currency.BUZZ =>
              [createBuzzTransaction_call
                 {| fromAccountId := 0; toAccountId := owner;
                    amount := unitAmount old;
                    type := TransactionType.Bounty;
                    tx_description :=
                      "Reason: Bounty entry has been awarded!" |}]
          | _ => []
          end) as <-.
  { unfold payout, bountyTransfer. by rewrite Ho. }
  simpl in Hpost. destruct Hpost as [(_ & -> & ->)|(_ & -> & ->)]; simpl.
  - split; [by rewrite lookup_insert_eq|].
    exists [bounty_update_call (entry_bountyId entry)].
    split; [|by right]. by rewrite <- app_assoc.
  - split; [by rewrite lookup_insert_eq|].
    exists []. split; [|by left]. by rewrite app_nil_r.
Qed.

(** C2. After a successful [awardBountyEntry] the parent bounty is
    complete if and only if no benefactor of that bounty has
    [awardedToId = null].  And the call does succeed whenever the entry,
    its bounty and the caller's benefactor row pass the checks and the
    ledger transfer (for a BUZZ pledge) completes: then, when every other
    benefactor of the bounty was already awarded, the call returns and the
    bounty is complete, and when some other benefactor is still unawarded,
    the call returns and the bounty stays incomplete. *)
Theorem awardBountyEntry_completion id userId now w :
  (∀ r w',
     awardBountyEntry id userId now w = (Ok r, w') →
     ∃ entry parent',
       bountyEntry (db w) !! id = Some entry
       ∧ bounty (db w') !! entry_bountyId entry = Some parent'
       ∧ (complete parent' = true
          ↔ allAwarded (entry_bountyId entry) (db w'))
       ∧ ((∀ u b, u ≠ userId →
                  bountyBenefactor (db w) !! (entry_bountyId entry, u)
                  = Some b →
                  awardedToId b ≠ None) →
          complete parent' = true)
       ∧ ((∃ u b, u ≠ userId
                  ∧ bountyBenefactor (db w) !! (entry_bountyId entry, u)
                    = Some b
                  ∧ awardedToId b = None) →
          complete parent' = false))
  ∧ (∀ entry parent old,
       Awardable id userId w entry parent old →
       (currency old = Currency.BUZZ →
        ledgerAccepts
          (calls w
           ++ [bountyBenefactor_update_call (entry_bountyId entry) userId])
          (bountyTransfer entry old) = true) →
       ∃ w' parent',
         awardBountyEntry id userId now w =
           (Ok (entry_bountyId entry, userId, awardedRow id now old), w')
         ∧ bounty (db w') !! entry_bountyId entry = Some parent'
         ∧ (complete parent' = true
            ↔ allAwarded (entry_bountyId entry) (db w'))
         ∧ ((∀ u b, u ≠ userId →
                    bountyBenefactor (db w) !! (entry_bountyId entry, u)
                    = Some b →
                    awardedToId b ≠ None) →
            complete parent' = true)
         ∧ ((∃ u b, u ≠ userId
                    ∧ bountyBenefactor (db w) !! (entry_bountyId entry, u)
                      = Some b
                    ∧ awardedToId b = None) →
            complete parent' = false)).
Proof.
  split.
  - intros r w' H. apply awardBountyEntry_Ok in H
      as (entry & parent & old & Haw & _ & Hpost).
    simpl in Hpost.
    destruct Hpost as [(Hall & -> & _)|(Hsome & -> & _)].
    + exists entry, {| complete := true |}. split; [apply Haw|].
      split; [by simpl; rewrite lookup_insert_eq|].
      split; [done|]. split; [done|].
      intros (u & b & Hne & Hb & Hn).
      rewrite allAwarded_linked in Hall. by destruct (Hall u b Hne Hb).
    + exists entry, parent. split; [apply Haw|].
      split; [apply Haw|].
      pose proof (awardable_open _ _ _ _ _ _ Haw) as Hopen.
      split; [|split].
      * rewrite Hopen. split; [done|]. intros Hall. by destruct Hsome.
      * intros Hothers. destruct Hsome. by apply allAwarded_linked.
      * done.
  - intros entry parent old Haw Hl.
    destruct (awardBountyEntry_succeeds id userId now w entry parent old)
      as [w' H]; [done..|].
    exists w'. pose proof H as Hpost.
    apply awardBountyEntry_Ok in Hpost
      as (entry' & parent0 & old' & Haw' & _ & Hpost).
    assert (entry' = entry) as ->.
    { pose proof (awardable_entry _ _ _ _ _ _ Haw) as E1.
      pose proof (awardable_entry _ _ _ _ _ _ Haw') as E2.
      rewrite E1 in E2. by injection E2. }
    assert (old' = old) as ->.
    { pose proof (awardable_benefactor _ _ _ _ _ _ Haw) as E1.
      pose proof (awardable_benefactor _ _ _ _ _ _ Haw') as E2.
      rewrite E1 in E2. by injection E2. }
    simpl in Hpost.
    destruct Hpost as [(Hall & Hdb & _)|(Hsome & Hdb & _)]; rewrite Hdb.
    + exists {| complete := true |}. split; [done|].
      split; [by simpl; rewrite lookup_insert_eq|].
      split; [done|]. split; [done|].
      intros (u & b & Hne & Hb & Hn).
      rewrite allAwarded_linked in Hall. by destruct (Hall u b Hne Hb).
    + exists parent. split; [done|]. split; [apply Haw|].
      pose proof (awardable_open _ _ _ _ _ _ Haw) as Hopen.
      split; [|split].
      * rewrite Hopen. split; [done|]. intros Hall. by destruct Hsome.
      * intros Hothers. destruct Hsome. by apply allAwarded_linked.
      * done.
Qed.

(** The transaction of [awardBountyEntry] for a benefactor that has
    awarded an entry. *)
Lemma awardBountyEntry_tx_awarded id userId now w entry parent b e :
  bountyEntry (db w) !! id = Some entry →
  bounty (db w) !! entry_bountyId entry = Some parent →
  bountyBenefactor (db w) !! (entry_bountyId entry, userId) = Some b →
  awardedToId b = Some e → e ≠ 0 →
  ∃ message, awardBountyEntry_tx id userId now w = (Err (BadRequest message), w).
Proof.
  intros He Hb Hbb Ha Hne. unfold awardBountyEntry_tx.
  rewrite bind_eq, bountyEntry_findUniqueOrThrow_bounty_eq, He, Hb.
  destruct (truthy (entry_userId entry)); simpl; [|by eexists].
  destruct (complete parent); [by eexists|].
  unfold_calls. simpl. rewrite Hbb. simpl.
  rewrite Ha, truthy_Some_nonzero by done. by eexists.
Qed.

Lemma awardBountyEntry_rejected id userId now w message :
  awardBountyEntry_tx id userId now w = (Err (BadRequest message), w) →
  isInvalidState (awardBountyEntry id userId now w).1
  ∧ (awardBountyEntry id userId now w).2 = w.
Proof.
  intros Htx. unfold awardBountyEntry, transaction, bind. rewrite Htx. simpl.
  split; [by exists message | apply world_eta].
Qed.

(** C3. A benefactor row whose [awardedToId] is set (to the id of an
    entry, which is a database serial and never 0) is the same row after
    any sequence of operations of the workflow, so its award is neither
    cleared nor reassigned; and an [awardBountyEntry] call by that
    benefactor on an entry of the bounty fails with InvalidState and
    changes nothing. *)
Theorem awarded_benefactor_is_final bountyId userId b e w :
  bountyBenefactor (db w) !! (bountyId, userId) = Some b →
  awardedToId b = Some e →
  e ≠ 0 →
  (∀ ops, bountyBenefactor (db (steps w ops)) !! (bountyId, userId) = Some b)
  ∧ (∀ id now entry parent,
       bountyEntry (db w) !! id = Some entry →
       entry_bountyId entry = bountyId →
       bounty (db w) !! bountyId = Some parent →
       isInvalidState (awardBountyEntry id userId now w).1
       ∧ (awardBountyEntry id userId now w).2 = w).
Proof.
  intros Hb Ha He. split.
  - intros ops. revert w Hb.
    induction ops as [|op ops IH]; intros w Hb; [done|].
    simpl. apply IH. by eapply step_benefactor.
  - intros id now entry parent Hentry <- Hparent.
    destruct (awardBountyEntry_tx_awarded id userId now w entry parent b e)
      as [message Htx]; [done..|].
    by eapply awardBountyEntry_rejected.
Qed.

(** C8. Along any sequence of operations of the workflow a bounty row
    either stays as it is or goes from incomplete to complete; a complete
    bounty stays complete. *)
Theorem complete_is_monotonic ops w id b :
  bounty (db w) !! id = Some b →
  ∃ b', bounty (db (steps w ops)) !! id = Some b'
        ∧ (b' = b ∨ (complete b = false ∧ complete b' = true))
        ∧ (complete b = true → complete b' = true).
Proof.
  revert w b. induction ops as [|op ops IH]; intros w b Hb; simpl.
  - exists b. eauto.
  - destruct (step_bounty w op id b Hb) as (b1 & Hb1 & Hstep).
    destruct (IH _ _ Hb1) as (b' & Hb' & Hrest & Hmono).
    exists b'. split; [done|].
    destruct Hstep as [->|[Hf Ht]]; [done|].
    split; [|congruence]. right. split; [done|]. by apply Hmono.
Qed.

(** C9. An operation of the workflow that fails (in particular
    [awardBountyEntry] or [deleteBountyEntry]) returns an error and no
    value, and leaves every table of the database as it was before the
    call.  The log of issued calls, where a ledger transfer is recorded, is
    not part of what is rolled back. *)
Theorem failure_rolls_back w op e :
  outcome w op = Some e → db (step w op) = db w.
Proof.
  destruct op as [eid bid files images descr uid|eid uid now|eid uid m|eid];
    simpl.
  - destruct (upsertBountyEntry _ _ _ _ _ _ w) as [[r|e'] w'] eqn:H; [done|].
    intros _. by apply transaction_Err in H.
  - destruct (awardBountyEntry _ _ _ w) as [[r|e'] w'] eqn:H; [done|].
    intros _. by apply awardBountyEntry_Err in H.
  - intros _. by rewrite getBountyEntryFilteredFiles_reads.
  - destruct (deleteBountyEntry eid w) as [[r|e'] w'] eqn:H; [done|].
    intros _. by apply deleteBountyEntry_Err in H as ->.
Qed.

(** C7 (amended). [awardBountyEntry] fails with Prisma's not-found error
    when the entry does not exist, and with InvalidState when the entry
    (with its bounty) exists but has no owning user; in both cases nothing
    is modified. *)
Theorem awardBountyEntry_entry_checks id userId now w :
  (bountyEntry (db w) !! id = None →
   isNotFound (awardBountyEntry id userId now w).1
   ∧ (awardBountyEntry id userId now w).2 = w)
  ∧ (∀ entry parent,
       bountyEntry (db w) !! id = Some entry →
       bounty (db w) !! entry_bountyId entry = Some parent →
       entry_userId entry = None →
       isInvalidState (awardBountyEntry id userId now w).1
       ∧ (awardBountyEntry id userId now w).2 = w).
Proof.
  split.
  - intros He.
    assert (awardBountyEntry_tx id userId now w = (Err NotFoundError, w))
      as Htx.
    { unfold awardBountyEntry_tx.
      by rewrite bind_eq, bountyEntry_findUniqueOrThrow_bounty_eq, He. }
    unfold awardBountyEntry, transaction, bind. rewrite Htx. simpl.
    split; [done | apply world_eta].
  - intros entry parent He Hb Hu.
    apply (awardBountyEntry_rejected _ _ _ _ "Entry has no user.").
    unfold awardBountyEntry_tx.
    rewrite bind_eq, bountyEntry_findUniqueOrThrow_bounty_eq, He, Hb.
    by rewrite Hu.
Qed.

(** C5 (amended). For an existing entry, [deleteBountyEntry] fails with
    InvalidState and changes nothing when the BUZZ pledges awarded to the
    entry sum to a positive amount; pledges in another currency are not
    counted.  When that sum is zero it returns the entry, and in the
    resulting database the entry, the files attached to it, the image
    connections attached to it and the images of those connections are
    gone, while everything else is as before. *)
Theorem deleteBountyEntry_guard id w entry parent :
  bountyEntry (db w) !! id = Some entry →
  bounty (db w) !! entry_bountyId entry = Some parent →
  (0 < awardedUnitAmount (db w) id Currency.BUZZ →
   isInvalidState (deleteBountyEntry id w).1 ∧ (deleteBountyEntry id w).2 = w)
  ∧ (awardedUnitAmount (db w) id Currency.BUZZ = 0 →
     (deleteBountyEntry id w).1 = Ok (Some entry)
     ∧ let d := db w in
       let d' := db (deleteBountyEntry id w).2 in
       bountyEntry d' !! id = None
       ∧ (∀ j, j ≠ id → bountyEntry d' !! j = bountyEntry d !! j)
       ∧ (∀ k f, file d' !! k = Some f
                 ↔ file d !! k = Some f ∧ ¬ file_attached id "BountyEntry" f)
       ∧ (∀ c, c ∈ imageConnection d'
               ↔ c ∈ imageConnection d ∧ ¬ conn_attached id "BountyEntry" c)
       ∧ (∀ k i, image d' !! k = Some i
                 ↔ image d !! k = Some i
                   ∧ ¬ ∃ c, c ∈ imageConnection d
                            ∧ conn_attached id "BountyEntry" c
                            ∧ imageId c = k)
       ∧ bounty d' = bounty d
       ∧ bountyBenefactor d' = bountyBenefactor d).
Proof.
  intros He Hb. rewrite deleteBountyEntry_eq, He, Hb. split.
  - intros Hpos. apply Z.ltb_lt in Hpos. rewrite Hpos. simpl.
    split; [by eexists|done].
  - intros Hzero. rewrite Hzero. simpl. split; [done|].
    split; [apply lookup_delete_eq|].
    split; [by intros j Hj; apply lookup_delete_ne|].
    split; [intros k f; by rewrite map_lookup_filter_Some|].
    split; [intros c; rewrite list_elem_of_filter; by split; intros [? ?]|].
    split; [|done].
    intros k i. rewrite map_lookup_filter_Some. simpl.
    rewrite list_elem_of_fmap.
    setoid_rewrite list_elem_of_filter. split.
    + intros [Hi Hn]. split; [done|]. intros (c & Hc & Ha & <-).
      apply Hn. exists c. auto.
    + intros [Hi Hn]. split; [done|]. intros (c & -> & Ha & Hc).
      apply Hn. exists c. auto.
Qed.

Lemma hasFullAccess_true id benefactor awarded details :
  hasFullAccess id benefactor awarded details = true
  ↔ (benefactorsOnly details ≠ Some true
     ∨ (benefactor ≫= awardedToId) = Some id)
    ∧ default 0 (unlockAmount details) ≤ awarded.
Proof.
  unfold hasFullAccess.
  destruct (Z.ltb_spec awarded (default 0 (unlockAmount details))).
  - split; [done|]. intros [_ ?]. lia.
  - destruct (benefactorsOnly details) as [[]|]; simpl.
    + rewrite bool_decide_eq_true. split; [intros ?; by split; [right|]|].
      by intros [[?|?] _].
    + split; [|done]. intros _. split; [by left|done].
    + split; [|done]. intros _. split; [by left|done].
Qed.

Lemma callerBenefactor_eq userId entry w :
  (if truthy userId
   then bountyBenefactor_findUnique (entry_bountyId entry) (default 0 userId)
   else ret None) w
  = (Ok (callerBenefactor userId entry (db w)), w).
Proof.
  unfold callerBenefactor, bountyBenefactor_findUnique, read, ret.
  destruct userId as [u|]; simpl; [|done].
  destruct (decide (u = 0)) as [->|Hne]; [done|].
  by apply Z.eqb_neq in Hne as ->.
Qed.

(** C6 (amended). For an existing entry, the entry owner and moderators
    receive the files of the entry as they are.  Every other caller
    receives each descriptor unchanged except that the URL is null unless
    the file is not benefactors-only or the caller's benefactor row is
    awarded to this entry, and the amount awarded to the entry in the
    currency of the caller's benefactor row (BUZZ when the caller has no
    such row) is at least the file's [unlockAmount] (0 when unset). *)
Theorem getBountyEntryFilteredFiles_gating id userId isModerator w entry :
  bountyEntry (db w) !! id = Some entry →
  let files := getFilesByEntity id "BountyEntry" (db w) in
  let owner := ∃ u, userId = Some u ∧ entry_userId entry = Some u in
  let benefactor := callerBenefactor userId entry (db w) in
  let awarded :=
    awardedUnitAmount (db w) id
      (default Currency.BUZZ (currency <$> benefactor)) in
  let visible (f : Z * File) : Prop :=
    (benefactorsOnly (file_metadata f.2) ≠ Some true
     ∨ (benefactor ≫= awardedToId) = Some id)
    ∧ default 0 (unlockAmount (file_metadata f.2)) ≤ awarded in
  (owner ∨ isModerator = true →
   (getBountyEntryFilteredFiles id userId isModerator w).1 = Ok files)
  ∧ (¬ owner → isModerator = false →
     ∃ out,
       (getBountyEntryFilteredFiles id userId isModerator w).1 = Ok out
       ∧ Forall2 (λ f g, (visible f → g = f)
                         ∧ (¬ visible f → g = (f.1, without_url f.2)))
                 files out).
Proof.
  intros He files owner benefactor awarded visible.
  unfold getBountyEntryFilteredFiles.
  rewrite bind_eq, bountyEntry_findUniqueOrThrow_eq, He.
  rewrite bind_eq. unfold read at 1. simpl. fold files.
  assert (bool_decide (is_Some userId ∧ entry_userId entry = userId) = true
          ↔ owner) as Howner.
  { rewrite bool_decide_eq_true. unfold owner. split.
    - intros [[u ->] Hu]. eauto.
    - intros (u & -> & ->). eauto. }
  split.
  - intros [Ho| ->].
    + apply Howner in Ho as ->. done.
    + by rewrite orb_true_r.
  - intros Hno ->. rewrite orb_false_r.
    destruct (bool_decide _) eqn:Hd; [by destruct Hno; apply Howner|].
    rewrite bind_eq, callerBenefactor_eq. fold benefactor.
    unfold bind, read, ret. simpl. rewrite He. simpl. fold awarded.
    eexists. split; [done|].
    apply Forall2_fmap_r, Forall_Forall2_diag, Forall_forall.
    intros [k f] _. simpl.
    pose proof (hasFullAccess_true id benefactor awarded (file_metadata f))
      as Hacc.
    destruct (hasFullAccess id benefactor awarded (file_metadata f)).
    + split; [|intros Hn; by destruct Hn; apply Hacc].
      intros _. by destruct f.
    + split; [|done]. intros Hv. apply Hacc in Hv. done.
Qed.

(** C10. [upsertBountyEntry] called with the id of an existing entry (ids
    are database serials, never 0) leaves that entry with the same parent
    bounty and the same owning user, and returns it; no other entry, no
    bounty and no benefactor is changed, the file table is changed only
    when [files] is given and the image tables only when [images] is
    given. *)
Theorem upsertBountyEntry_existing id e bountyId files images description
    userId w :
  bountyEntry (db w) !! id = Some e →
  id ≠ 0 →
  let call :=
    upsertBountyEntry (Some id) bountyId files images description userId w in
  ∃ e',
    bountyEntry (db call.2) !! id = Some e'
    ∧ entry_bountyId e' = entry_bountyId e
    ∧ entry_userId e' = entry_userId e
    ∧ (∀ r, call.1 = Ok r → r = Some (id, e'))
    ∧ (∀ j, j ≠ id → bountyEntry (db call.2) !! j = bountyEntry (db w) !! j)
    ∧ bounty (db call.2) = bounty (db w)
    ∧ bountyBenefactor (db call.2) = bountyBenefactor (db w)
    ∧ (files = None → file (db call.2) = file (db w))
    ∧ (images = None →
       imageConnection (db call.2) = imageConnection (db w)
       ∧ image (db call.2) = image (db w)).
Proof.
  intros He Hid. unfold upsertBountyEntry.
  rewrite truthy_Some_nonzero by done. unfold_calls. simpl. rewrite He.
  simpl.
  destruct files as [files|], images as [images|]; simpl;
    repeat (case_match; simplify_eq/=);
    (eexists; split; [first [apply lookup_insert_eq | exact He]|]);
    repeat split; try done;
    try (by intros j Hj; apply lookup_insert_ne);
    try (by intros r [= <-]);
    congruence.
Qed.

(** C4. For every entry whose parent bounty is already marked complete,
    [awardBountyEntry] on that entry fails with InvalidState whatever the
    caller's benefactor row is (also when there is none), and nothing is
    modified: the database is unchanged and no call was issued. *)
Theorem awardBountyEntry_complete_rejected id userId now w entry parent :
  bountyEntry (db w) !! id = Some entry →
  bounty (db w) !! entry_bountyId entry = Some parent →
  complete parent = true →
  isInvalidState (awardBountyEntry id userId now w).1
  ∧ (awardBountyEntry id userId now w).2 = w.
Proof.
  intros He Hb Hc.
  destruct (awardBountyEntry_tx_complete id userId now w entry parent)
    as [message Htx]; [done..|].
  by eapply awardBountyEntry_rejected.
Qed.

(** ** Further properties of the service *)

(** *** Earned amounts *)

Lemma earned_rows d cur (l : list Z) :
  NoDup l →
  let rows :=
    omap (λ id, match bountyEntry d !! id with
                | Some _ => Some (id, awardedUnitAmount d id cur)
                | None => None
                end) l in
  NoDup rows.*1
  ∧ ∀ id a, (id, a) ∈ rows
            ↔ id ∈ l ∧ is_Some (bountyEntry d !! id)
              ∧ a = awardedUnitAmount d id cur.
Proof.
  induction 1 as [|x l Hx Hl IH]; simpl.
  - split; [constructor|]. intros id a. rewrite elem_of_nil.
    split; [done|]. intros [[]%elem_of_nil _].
  - destruct IH as [IHnd IHin].
    destruct (bountyEntry d !! x) as [e|] eqn:He; simpl.
    + split.
      * constructor; [|done]. intros Hin.
        apply list_elem_of_fmap in Hin as ([y a] & -> & Hya).
        apply IHin in Hya as [Hy _]. done.
      * intros id a. rewrite elem_of_cons, IHin, elem_of_cons. split.
        -- intros [[= -> ->]|(? & ? & ?)]; [|by auto].
           split; [by left|]. by rewrite He.
        -- intros ([->|Hin] & Hs & ->); [by left|]. right. auto.
    + split; [done|]. intros id a. rewrite IHin, elem_of_cons. split.
      * intros (? & ? & ?). auto.
      * intros ([->|Hin] & Hs & ->); [|by auto].
        rewrite He in Hs. by destruct Hs.
Qed.

(** X1. [getBountyEntryEarnedBuzz] never fails and never writes; it returns
    one row for each distinct id among [ids] that is the id of an entry,
    with the amount awarded to that entry in the given currency (BUZZ by
    default), and no row for any other id. *)
Theorem getBountyEntryEarnedBuzz_rows ids currency w :
  ∃ rows,
    getBountyEntryEarnedBuzz ids currency w = (Ok rows, w)
    ∧ NoDup rows.*1
    ∧ ∀ id a, (id, a) ∈ rows
              ↔ id ∈ ids ∧ is_Some (bountyEntry (db w) !! id)
                ∧ a = awardedUnitAmount (db w) id
                        (default Currency.BUZZ currency).
Proof.
  unfold getBountyEntryEarnedBuzz, read, ret.
  destruct ids as [|i ids].
  - exists []. split; [done|]. split; [constructor|].
    intros id a. rewrite elem_of_nil. split; [done|].
    intros [[]%elem_of_nil _].
  - eexists. split; [done|].
    destruct (earned_rows (db w) (default Currency.BUZZ currency)
                (remove_dups (i :: ids)) (NoDup_remove_dups _))
      as [Hnd Hin].
    split; [done|]. intros id a. rewrite Hin.
    by rewrite elem_of_remove_dups.
Qed.

(** The part of the sum of [awardedUnitAmount] that one row contributes. *)
Lemma awardedUnitAmount_insert d k old new id cur :
  bountyBenefactor d !! k = Some old →
  awardedUnitAmount (set_bountyBenefactor (insert k new) d) id cur
  + (if decide (awardedToId old = Some id ∧ currency old = cur)
     then unitAmount old else 0)
  = awardedUnitAmount d id cur
    + (if decide (awardedToId new = Some id ∧ currency new = cur)
       then unitAmount new else 0).
Proof.
  intros Hold. unfold awardedUnitAmount. simpl.
  set (f := λ (_ : Z * Z) (b : BountyBenefactor) (acc : Z),
              if decide (awardedToId b = Some id ∧ currency b = cur)
              then unitAmount b + acc else acc).
  assert (∀ j1 j2 z1 z2 y, f j1 z1 (f j2 z2 y) = f j2 z2 (f j1 z1 y))
    as Hcomm.
  { intros. unfold f. repeat case_decide; lia. }
  rewrite (map_fold_delete_L f 0 k old (bountyBenefactor d))
    by first [done | intros; apply Hcomm].
  rewrite <- (insert_delete_eq (bountyBenefactor d) k new).
  rewrite map_fold_insert_L
    by first [apply lookup_delete_eq | intros; apply Hcomm].
  unfold f at 1 3. repeat case_decide; lia.
Qed.

Lemma falsy_not_Some x id : truthy x = false → id ≠ 0 → x ≠ Some id.
Proof.
  intros Hf Hid ->. by rewrite truthy_Some_nonzero in Hf.
Qed.

(** The amounts awarded to the entries after an award. *)
Lemma awardBountyEntry_earned id userId now w r w' :
  awardBountyEntry id userId now w = (Ok r, w') →
  id ≠ 0 →
  ∀ cur,
    awardedUnitAmount (db w') id cur
    = awardedUnitAmount (db w) id cur
      + (if decide (currency r.2 = cur) then unitAmount r.2 else 0)
    ∧ ∀ other, other ≠ id → other ≠ 0 →
        awardedUnitAmount (db w') other cur
        = awardedUnitAmount (db w) other cur.
Proof.
  intros H Hid cur. apply awardBountyEntry_Ok in H
    as (entry & parent & old & Haw & -> & Hpost).
  pose proof (awardable_benefactor _ _ _ _ _ _ Haw) as Hold.
  pose proof (awardable_unawarded _ _ _ _ _ _ Haw) as Hfalsy.
  assert (∀ j,
    awardedUnitAmount (db w') j cur
    = awardedUnitAmount
        (linked (entry_bountyId entry) userId id now old (db w)) j cur)
    as Hdb.
  { intros j. simpl in Hpost. by destruct Hpost as [(_ & -> & _)|(_ & -> & _)]. }
  split.
  - rewrite Hdb. unfold linked.
    pose proof (awardedUnitAmount_insert (db w) _ old (awardedRow id now old)
                  id cur Hold) as Heq.
    simpl in *.
    rewrite decide_False in Heq
      by (intros [? _]; by eapply falsy_not_Some).
    destruct (decide (currency old = cur)).
    + rewrite decide_True in Heq by done. lia.
    + rewrite decide_False in Heq by (by intros [_ ?]). lia.
  - intros other Hne H0. rewrite Hdb. unfold linked.
    pose proof (awardedUnitAmount_insert (db w) _ old (awardedRow id now old)
                  other cur Hold) as Heq.
    simpl in *.
    rewrite decide_False in Heq
      by (intros [? _]; by eapply falsy_not_Some).
    rewrite decide_False in Heq by (intros [[=] _]; done).
    lia.
Qed.

(** X2. A successful award of entry [id] (an id other than 0) raises the
    amount awarded to that entry in the currency of the pledge by exactly
    the pledge's [unitAmount]; the amount in any other currency, and the
    amounts of the other entries, stay as they were. *)
Theorem awardBountyEntry_raises_earned id userId now w r w' cur :
  awardBountyEntry id userId now w = (Ok r, w') →
  id ≠ 0 →
  awardedUnitAmount (db w') id cur
  = awardedUnitAmount (db w) id cur
    + (if decide (currency r.2 = cur) then unitAmount r.2 else 0)
  ∧ ∀ other, other ≠ id → other ≠ 0 →
      awardedUnitAmount (db w') other cur
      = awardedUnitAmount (db w) other cur.
Proof. intros H Hid. by apply (awardBountyEntry_earned id userId now w r w'). Qed.

(** The entry of a successful award and its bounty are in the resulting
    database. *)
Lemma awardBountyEntry_entry_kept id userId now w r w' :
  awardBountyEntry id userId now w = (Ok r, w') →
  ∃ entry parent',
    bountyEntry (db w') !! id = Some entry
    ∧ bounty (db w') !! entry_bountyId entry = Some parent'.
Proof.
  intros H. apply awardBountyEntry_Ok in H
    as (entry & parent & old & Haw & _ & Hpost).
  simpl in Hpost. destruct Hpost as [(_ & -> & _)|(_ & -> & _)]; simpl.
  - exists entry, {| complete := true |}.
    split; [apply Haw | apply lookup_insert_eq].
  - exists entry, parent. split; apply Haw.
Qed.

(** X3. An entry that has just been awarded a positive BUZZ pledge cannot
    be deleted: when the amount awarded to it before was not negative,
    [deleteBountyEntry] after the award fails with InvalidState and changes
    nothing. *)
Theorem awardBountyEntry_then_delete_rejected id userId now w r w' :
  awardBountyEntry id userId now w = (Ok r, w') →
  id ≠ 0 →
  currency r.2 = Currency.BUZZ →
  0 < unitAmount r.2 →
  0 ≤ awardedUnitAmount (db w) id Currency.BUZZ →
  isInvalidState (deleteBountyEntry id w').1
  ∧ (deleteBountyEntry id w').2 = w'.
Proof.
  intros H Hid Hcur Hpos Hbefore.
  destruct (awardBountyEntry_entry_kept _ _ _ _ _ _ H)
    as (entry & parent' & He & Hb).
  destruct (awardBountyEntry_earned _ _ _ _ _ _ H Hid Currency.BUZZ)
    as [Hsum _].
  rewrite decide_True in Hsum by done.
  rewrite deleteBountyEntry_eq, He, Hb.
  assert ((0 <? awardedUnitAmount (db w') id Currency.BUZZ) = true) as ->
    by (apply Z.ltb_lt; lia).
  simpl. split; [by eexists|done].
Qed.

(** *** Awarding: errors, success and frame *)

(** X4. An award by a user who has no benefactor row for the bounty of the
    entry fails with Prisma's not-found error, whenever the entry has an
    owner and its bounty is open; nothing is modified. *)
Theorem awardBountyEntry_no_benefactor id userId now w entry parent :
  bountyEntry (db w) !! id = Some entry →
  bounty (db w) !! entry_bountyId entry = Some parent →
  truthy (entry_userId entry) = true →
  complete parent = false →
  bountyBenefactor (db w) !! (entry_bountyId entry, userId) = None →
  awardBountyEntry id userId now w = (Err NotFoundError, w).
Proof.
  intros He Hb Hu Hc Hbb.
  assert (awardBountyEntry_tx id userId now w = (Err NotFoundError, w))
    as Htx.
  { unfold awardBountyEntry_tx.
    rewrite bind_eq, bountyEntry_findUniqueOrThrow_bounty_eq, He, Hb.
    rewrite Hu, Hc. simpl. unfold_calls. simpl. by rewrite Hbb. }
  unfold awardBountyEntry, transaction, bind. rewrite Htx.
  by rewrite world_eta.
Qed.

(** X5. When the ledger refuses the transfer of a BUZZ pledge, the award
    fails with the ledger's error after the benefactor update and the
    transfer were issued, and the database is as before the call: the
    benefactor is still unawarded. *)
Theorem awardBountyEntry_ledger_refuses id userId now w entry parent old :
  Awardable id userId w entry parent old →
  currency old = Currency.BUZZ →
  ledgerAccepts
    (calls w ++ [bountyBenefactor_update_call (entry_bountyId entry) userId])
    (bountyTransfer entry (awardedRow id now old)) = false →
  awardBountyEntry id userId now w =
    (Err LedgerError,
     {| db := db w;
        calls := calls w
                 ++ [bountyBenefactor_update_call (entry_bountyId entry) userId;
                     createBuzzTransaction_call
                       (bountyTransfer entry (awardedRow id now old))] |}).
Proof.
  intros [He Hb Hu Hc Hbb Ha] Hcur Hl.
  assert (awardBountyEntry_tx id userId now w =
            (Err LedgerError,
             {| db := linked (entry_bountyId entry) userId id now old (db w);
                calls :=
                  calls w
                  ++ [bountyBenefactor_update_call (entry_bountyId entry)
                        userId;
                      createBuzzTransaction_call
                        (bountyTransfer entry (awardedRow id now old))] |}))
    as Htx.
  { unfold awardBountyEntry_tx.
    rewrite bind_eq, bountyEntry_findUniqueOrThrow_bounty_eq, He, Hb.
    rewrite Hu, Hc. simpl. unfold_calls. simpl. rewrite Hbb. simpl.
    rewrite Ha. simpl. rewrite Hbb. simpl. rewrite Hcur.
    unfold bountyTransfer in Hl. simpl in *. rewrite Hl.
    unfold linked, bountyTransfer. simpl. by rewrite <- app_assoc. }
  unfold awardBountyEntry, transaction, bind. by rewrite Htx.
Qed.

(** The ledger completed the transfer of a committed award. *)
Lemma awardBountyEntry_tx_Ok_ledger id userId now w r w' entry old :
  awardBountyEntry_tx id userId now w = (Ok r, w') →
  bountyEntry (db w) !! id = Some entry →
  bountyBenefactor (db w) !! (entry_bountyId entry, userId) = Some old →
  currency old = Currency.BUZZ →
  ledgerAccepts
    (calls w ++ [bountyBenefactor_update_call (entry_bountyId entry) userId])
    (bountyTransfer entry (awardedRow id now old)) = true.
Proof.
  intros H He Hbb Hcur. revert H. unfold awardBountyEntry_tx.
  rewrite bind_eq, bountyEntry_findUniqueOrThrow_bounty_eq, He.
  destruct (bounty (db w) !! entry_bountyId entry) as [parent|]; [|done].
  destruct (truthy (entry_userId entry)); simpl; [|done].
  destruct (complete parent); [done|].
  unfold_calls. simpl. rewrite Hbb. simpl.
  destruct (truthy (awardedToId old)); [done|]. simpl. rewrite Hbb. simpl.
  rewrite Hcur. unfold bountyTransfer. simpl.
  by destruct (ledgerAccepts _ _).
Qed.

(** X6. [awardBountyEntry] returns exactly when the entry exists with its
    bounty, has an owner, the bounty is not complete, the caller has a
    benefactor row for the bounty that has not awarded an entry, and, for a
    BUZZ pledge, the ledger completes the transfer. *)
Theorem awardBountyEntry_succeeds_iff id userId now w :
  (∃ r w', awardBountyEntry id userId now w = (Ok r, w'))
  ↔ ∃ entry parent old,
      Awardable id userId w entry parent old
      ∧ (currency old = Currency.BUZZ →
         ledgerAccepts
           (calls w
            ++ [bountyBenefactor_update_call (entry_bountyId entry) userId])
           (bountyTransfer entry (awardedRow id now old)) = true).
Proof.
  split.
  - intros (r & w' & H).
    pose proof H as H'. apply awardBountyEntry_Ok in H'
      as (entry & parent & old & Haw & _ & _).
    exists entry, parent, old. split; [done|]. intros Hcur.
    unfold awardBountyEntry in H. rewrite bind_eq in H.
    destruct (transaction _ w) as [[a|e] w1] eqn:Htx; [|done].
    apply transaction_Ok in Htx.
    eapply awardBountyEntry_tx_Ok_ledger; [done|apply Haw|apply Haw|done].
  - intros (entry & parent & old & Haw & Hl).
    destruct (awardBountyEntry_succeeds id userId now w entry parent old)
      as [w' H]; [done|exact Hl|]. eauto.
Qed.

(** X7. A successful award writes one benefactor row and at most the
    completion flag of the entry's bounty: every entry, file, image and
    image connection, every other benefactor row and every other bounty is
    as before. *)
Theorem awardBountyEntry_frame id userId now w r w' :
  awardBountyEntry id userId now w = (Ok r, w') →
  bountyEntry (db w') = bountyEntry (db w)
  ∧ file (db w') = file (db w)
  ∧ imageConnection (db w') = imageConnection (db w)
  ∧ image (db w') = image (db w)
  ∧ (∀ k, k ≠ r.1 → bountyBenefactor (db w') !! k = bountyBenefactor (db w) !! k)
  ∧ (∀ j, j ≠ r.1.1 → bounty (db w') !! j = bounty (db w) !! j).
Proof.
  intros H. apply awardBountyEntry_Ok in H
    as (entry & parent & old & Haw & -> & Hpost).
  simpl in *. destruct Hpost as [(_ & -> & _)|(_ & -> & _)]; simpl;
    repeat split; try done;
    try (by intros k Hk; apply lookup_insert_ne);
    try (by intros j Hj; apply lookup_insert_ne).
Qed.

(** *** Upsert *)

Lemma nextId_fresh {V} (table : gmap Z V) :
  table !! nextId table = None ∧ 0 < nextId table.
Proof.
  unfold nextId.
  assert (0 ≤ map_fold (λ k (_ : V) acc, Z.max k acc) 0 table
          ∧ ∀ k, is_Some (table !! k) →
                 k ≤ map_fold (λ k (_ : V) acc, Z.max k acc) 0 table)
    as [Hpos Hmax].
  { apply (map_fold_weak_ind
             (λ b (m : gmap Z V), 0 ≤ b ∧ ∀ k, is_Some (m !! k) → k ≤ b)).
    - split; [done|]. intros k [x Hx]. by rewrite lookup_empty in Hx.
    - intros i x m r _ [Hr Hm]. split; [lia|]. intros k Hk.
      destruct (decide (i = k)) as [->|Hne]; [lia|].
      rewrite lookup_insert_ne in Hk by done. specialize (Hm k Hk). lia. }
  split; [|lia].
  destruct (table !! (1 + _)) eqn:Hl; [|done].
  specialize (Hmax _ (mk_is_Some _ _ Hl)). lia.
Qed.

(** The entries after a successful [upsertBountyEntry]. *)
Lemma upsertBountyEntry_Ok id bountyId files images description userId w r w' :
  upsertBountyEntry id bountyId files images description userId w
    = (Ok r, w') →
  ∃ i e,
    r = Some (i, e)
    ∧ bountyEntry (db w') = <[i := e]> (bountyEntry (db w))
    ∧ (if truthy id
       then i = default 0 id
            ∧ ∃ old, bountyEntry (db w) !! i = Some old
                     ∧ entry_bountyId e = entry_bountyId old
                     ∧ entry_userId e = entry_userId old
       else i = nextId (bountyEntry (db w))
            ∧ entry_bountyId e = bountyId
            ∧ entry_userId e = Some userId).
Proof.
  unfold upsertBountyEntry. destruct (truthy id); unfold_calls; simpl;
    intros H; repeat (case_match; simplify_eq/=);
    eexists _, _; (split; [done|]); (split; [done|]); eauto 10.
Qed.

(** X8. [upsertBountyEntry] without an id, or with the id 0, creates an
    entry: when it returns, the entry it returns has the given bounty and
    the caller as owner, its id is new and not 0, and every entry that
    existed is unchanged. *)
Theorem upsertBountyEntry_creates id bountyId files images description
    userId w r w' :
  truthy id = false →
  upsertBountyEntry id bountyId files images description userId w
    = (Ok r, w') →
  ∃ newId e,
    r = Some (newId, e)
    ∧ newId ≠ 0
    ∧ bountyEntry (db w) !! newId = None
    ∧ entry_bountyId e = bountyId
    ∧ entry_userId e = Some userId
    ∧ bountyEntry (db w') !! newId = Some e
    ∧ ∀ j old, bountyEntry (db w) !! j = Some old →
               bountyEntry (db w') !! j = Some old.
Proof.
  intros Hid H. apply upsertBountyEntry_Ok in H as (i & e & -> & Hdb & Hi).
  rewrite Hid in Hi. destruct Hi as (-> & Hb & Hu).
  destruct (nextId_fresh (bountyEntry (db w))) as [Hfresh Hpos].
  exists (nextId (bountyEntry (db w))), e.
  split; [done|]. split; [lia|]. split; [done|].
  split; [done|]. split; [done|]. rewrite Hdb.
  split; [apply lookup_insert_eq|].
  intros j old Hj. rewrite lookup_insert_ne; [done|]. by intros <-; simplify_eq.
Qed.

(** X9. [upsertBountyEntry] with an id (other than 0) that is not the id of
    an entry fails with Prisma's not-found error; no entry is created, no
    collaborator is called and nothing is modified. *)
Theorem upsertBountyEntry_missing id bountyId files images description
    userId w :
  id ≠ 0 →
  bountyEntry (db w) !! id = None →
  upsertBountyEntry (Some id) bountyId files images description userId w
  = (Err NotFoundError, w).
Proof.
  intros Hid He. unfold upsertBountyEntry.
  rewrite truthy_Some_nonzero by done. unfold_calls. simpl.
  rewrite He. simpl. by rewrite world_eta.
Qed.

(** X10. What a successful [upsertBountyEntry] returns is what the store
    holds afterwards: [getEntryById] on the returned id gives the returned
    entry, and [getAllEntriesByBountyId] for its bounty lists it. *)
Theorem upsertBountyEntry_then_read id bountyId files images description
    userId w r w' :
  upsertBountyEntry id bountyId files images description userId w
    = (Ok r, w') →
  ∃ i e entries,
    r = Some (i, e)
    ∧ getEntryById i w' = (Ok (Some e), w')
    ∧ getAllEntriesByBountyId (entry_bountyId e) None w' = (Ok entries, w')
    ∧ (i, e) ∈ entries.
Proof.
  intros H. apply upsertBountyEntry_Ok in H as (i & e & -> & Hdb & _).
  exists i, e. eexists. split; [done|].
  unfold getEntryById, getAllEntriesByBountyId, read. rewrite Hdb.
  split; [by rewrite lookup_insert_eq|]. split; [done|].
  apply elem_of_map_to_list, map_lookup_filter_Some.
  split; [apply lookup_insert_eq|done].
Qed.

(** *** Deletion *)

Lemma awardBountyEntry_missing id userId now w :
  bountyEntry (db w) !! id = None →
  awardBountyEntry id userId now w = (Err NotFoundError, w).
Proof.
  intros He.
  assert (awardBountyEntry_tx id userId now w = (Err NotFoundError, w))
    as Htx.
  { unfold awardBountyEntry_tx.
    by rewrite bind_eq, bountyEntry_findUniqueOrThrow_bounty_eq, He. }
  unfold awardBountyEntry, transaction, bind. rewrite Htx.
  by rewrite world_eta.
Qed.

Lemma getBountyEntryFilteredFiles_missing id userId isModerator w :
  bountyEntry (db w) !! id = None →
  getBountyEntryFilteredFiles id userId isModerator w = (Err NotFoundError, w).
Proof.
  intros He. unfold getBountyEntryFilteredFiles.
  by rewrite bind_eq, bountyEntry_findUniqueOrThrow_eq, He.
Qed.

(** X11. After a successful [deleteBountyEntry] the entry is gone for the
    whole service: [getEntryById] finds nothing, no listing by bounty
    contains it, and deleting it again, awarding it or listing its files
    fails with Prisma's not-found error and changes nothing. *)
Theorem deleteBountyEntry_then_gone id w r w' :
  deleteBountyEntry id w = (Ok r, w') →
  getEntryById id w' = (Ok None, w')
  ∧ (∀ bountyId userId entries e,
       getAllEntriesByBountyId bountyId userId w' = (Ok entries, w') →
       (id, e) ∉ entries)
  ∧ deleteBountyEntry id w' = (Err NotFoundError, w')
  ∧ (∀ userId now,
       awardBountyEntry id userId now w' = (Err NotFoundError, w'))
  ∧ (∀ userId isModerator,
       getBountyEntryFilteredFiles id userId isModerator w'
       = (Err NotFoundError, w')).
Proof.
  intros H.
  assert (bountyEntry (db w') !! id = None) as Hgone.
  { rewrite deleteBountyEntry_eq in H.
    repeat (case_match; simplify_eq/=). apply lookup_delete_eq. }
  split; [by unfold getEntryById, read; rewrite Hgone|].
  split.
  { intros bountyId userId entries e. unfold getAllEntriesByBountyId, read.
    intros [= <-]. rewrite elem_of_map_to_list, map_lookup_filter_Some.
    intros [Hl _]. by rewrite Hgone in Hl. }
  split; [by rewrite deleteBountyEntry_eq, Hgone|].
  split; [intros; by apply awardBountyEntry_missing|].
  intros. by apply getBountyEntryFilteredFiles_missing.
Qed.

(** *** File listing *)

(** X12. For an existing entry the file listing always returns and never
    writes: it yields one descriptor for each file of the entry, in the
    same order and with the same id, and each descriptor is the stored one
    or the stored one with its URL replaced by null. *)
Theorem getBountyEntryFilteredFiles_total id userId isModerator w entry :
  bountyEntry (db w) !! id = Some entry →
  ∃ out,
    getBountyEntryFilteredFiles id userId isModerator w = (Ok out, w)
    ∧ Forall2 (λ f g : Z * File,
                 g.1 = f.1 ∧ (g.2 = f.2 ∨ g.2 = without_url f.2))
              (getFilesByEntity id "BountyEntry" (db w)) out.
Proof.
  intros He. unfold getBountyEntryFilteredFiles.
  rewrite bind_eq, bountyEntry_findUniqueOrThrow_eq, He.
  rewrite bind_eq. unfold read at 1. simpl.
  destruct (_ || _).
  - eexists. split; [done|]. apply Forall_Forall2_diag, Forall_forall.
    intros f _. auto.
  - rewrite bind_eq, callerBenefactor_eq.
    unfold bind, read, ret. simpl. rewrite He. simpl.
    eexists. split; [done|].
    apply Forall2_fmap_r, Forall_Forall2_diag, Forall_forall.
    intros [k f] _. simpl. split; [done|].
    destruct (hasFullAccess _ _ _ _); [left; by destruct f|by right].
Qed.

(** X13. A caller who is neither the owner nor a moderator, and whose
    benefactor row (if any) is not awarded to this entry, receives a null
    URL for every benefactors-only file, whatever amount the entry has been
    awarded. *)
Theorem getBountyEntryFilteredFiles_benefactorsOnly id userId w entry :
  bountyEntry (db w) !! id = Some entry →
  ¬ (∃ u, userId = Some u ∧ entry_userId entry = Some u) →
  (callerBenefactor userId entry (db w) ≫= awardedToId) ≠ Some id →
  ∃ out,
    getBountyEntryFilteredFiles id userId false w = (Ok out, w)
    ∧ ∀ k f, (k, f) ∈ out →
             benefactorsOnly (file_metadata f) = Some true →
             file_url f = None.
Proof.
  intros He Hno Hnot. unfold getBountyEntryFilteredFiles.
  rewrite bind_eq, bountyEntry_findUniqueOrThrow_eq, He.
  rewrite bind_eq. unfold read at 1. simpl. rewrite orb_false_r.
  destruct (bool_decide _) eqn:Hd.
  { apply bool_decide_eq_true in Hd as [[u ->] Hu]. destruct Hno. eauto. }
  rewrite bind_eq, callerBenefactor_eq.
  unfold bind, read, ret. simpl. rewrite He. simpl.
  eexists. split; [done|]. intros k f Hin Hb.
  apply list_elem_of_fmap in Hin as ([k0 f0] & [= -> ->] & _). simpl in *.
  destruct (hasFullAccess _ _ _ _) eqn:Hacc; [|done].
  apply hasFullAccess_true in Hacc as [[Hn|Ha] _]; done.
Qed.

(** *** An invariant of the workflow *)

Lemma step_allAwarded w op bountyId :
  allAwarded bountyId (db w) → allAwarded bountyId (db (step w op)).
Proof.
  intros Hall.
  destruct op as [eid bid files images descr uid|eid uid now| |eid]; simpl.
  - unfold allAwarded.
    by destruct (upsertBountyEntry_frame eid bid files images descr uid w)
      as [_ ->].
  - destruct (awardBountyEntry_db eid uid now w)
      as [->|(entry & parent & old & Haw & Hdb)]; [done|].
    assert (bountyBenefactor (db (awardBountyEntry eid uid now w).2)
            = <[(entry_bountyId entry, uid) := awardedRow eid now old]>
                (bountyBenefactor (db w))) as Hrows
      by (by destruct Hdb as [-> | ->]).
    unfold allAwarded. rewrite Hrows. intros u b.
    destruct (decide ((entry_bountyId entry, uid) = (bountyId, u)))
      as [->|Hne].
    + rewrite lookup_insert_eq. by intros [= <-].
    + rewrite lookup_insert_ne by done. apply Hall.
  - by rewrite getBountyEntryFilteredFiles_reads.
  - unfold allAwarded.
    by destruct (deleteBountyEntry_frame eid w) as [_ ->].
Qed.

Lemma step_completeMeansAwarded w op :
  completeMeansAwarded (db w) → completeMeansAwarded (db (step w op)).
Proof.
  intros Hinv j b Hb Hc.
  assert (bounty (db (step w op)) = bounty (db w) →
          allAwarded j (db (step w op))) as Hsame.
  { intros Heq. apply step_allAwarded. apply (Hinv j b); [|done].
    by rewrite <- Heq. }
  destruct op as [eid bid files images descr uid|eid uid now| |eid];
    simpl in *.
  - apply Hsame.
    by destruct (upsertBountyEntry_frame eid bid files images descr uid w).
  - destruct (awardBountyEntry eid uid now w) as [[r|e] w'] eqn:H; simpl in *.
    + apply awardBountyEntry_Ok in H
        as (entry & parent & old & Haw & _ & Hpost).
      simpl in Hpost. destruct Hpost as [(Hall & Hdb & _)|(_ & Hdb & _)].
      * rewrite Hdb in Hb |- *. simpl in *.
        destruct (decide (entry_bountyId entry = j)) as [<-|Hj]; [done|].
        rewrite lookup_insert_ne in Hb by done.
        intros u row. simpl. rewrite lookup_insert_ne by congruence.
        apply (Hinv j b Hb Hc).
      * apply Hsame. by rewrite Hdb.
    + apply Hsame. apply awardBountyEntry_Err in H. by rewrite H.
  - apply Hsame. by rewrite getBountyEntryFilteredFiles_reads.
  - apply Hsame. by destruct (deleteBountyEntry_frame eid w).
Qed.

(** X14. If every bounty marked complete has no benefactor with
    [awardedToId = null], then this is still so after any sequence of
    operations of the workflow: the service never marks a bounty complete
    while a pledge is unawarded, and never makes a pledge of a complete
    bounty unawarded. *)
Theorem completeMeansAwarded_invariant w ops :
  completeMeansAwarded (db w) → completeMeansAwarded (db (steps w ops)).
Proof.
  revert w. induction ops as [|op ops IH]; intros w Hinv; [done|].
  simpl. apply IH. by apply step_completeMeansAwarded.
Qed.
End Service.

Arguments Upsert {FilesInput ImagesInput}.
Arguments Award {FilesInput ImagesInput}.
Arguments ListFiles {FilesInput ImagesInput}.
Arguments Delete {FilesInput ImagesInput}.
Arguments upsertBountyEntry {FilesInput ImagesInput}.
Arguments step {FilesInput ImagesInput}.
Arguments steps {FilesInput ImagesInput}.
Arguments outcome {FilesInput ImagesInput}.

(** * The properties on the sample stores *)

(** C1 in the scenario: benefactor 101 awards entry 10, the row is linked
    and 50 BUZZ go from account 0 to user 7. *)
Lemma awardBountyEntry_links_and_pays_witness :
  let w' := (awardBountyEntry ledgerCompletes 10 101 1000 scenario).2 in
  ∃ entry owner old,
    bountyEntry (db scenario) !! 10 = Some entry
    ∧ entry_userId entry = Some owner
    ∧ bountyBenefactor (db scenario) !! (entry_bountyId entry, 101) = Some old
    ∧ bountyBenefactor (db w') !! (entry_bountyId entry, 101) =
        Some {| unitAmount := unitAmount old; currency := currency old;
                awardedToId := Some 10; awardedAt := Some 1000 |}
    ∧ ∃ closing,
        calls w' =
          calls scenario
          ++ bountyBenefactor_update_call (entry_bountyId entry) 101
             :: match currency old with
                | Currency.BUZZ =>
                    [createBuzzTransaction_call
                       {| fromAccountId := 0;
                          toAccountId := owner;
                          amount := unitAmount old;
                          type := TransactionType.Bounty;
                          tx_description :=
                            "Reason: Bounty entry has been awarded!" |}]
                | _ => []
                end
             ++ closing
        ∧ (closing = []
           ∨ closing = [bounty_update_call (entry_bountyId entry)]).
Proof.
  apply (awardBountyEntry_links_and_pays ledgerCompletes 10 101 1000 scenario
           (1, 101, {| unitAmount := 50; currency := Currency.BUZZ;
                       awardedToId := Some 10; awardedAt := Some 1000 |})).
  vm_compute. reflexivity.
Defined.

(** C2 in the scenario: the award of benefactor 101 returns and leaves
    bounty 1 incomplete, since benefactor 102 is unawarded; the award of
    benefactor 102 after it is the last one, it returns and bounty 1 is
    complete. *)
Lemma awardBountyEntry_completion_witness :
  let w1 := (awardBountyEntry ledgerCompletes 10 101 1000 scenario).2 in
  (∃ w',
     awardBountyEntry ledgerCompletes 10 101 1000 scenario
     = (Ok (1, 101, {| unitAmount := 50; currency := Currency.BUZZ;
                       awardedToId := Some 10; awardedAt := Some 1000 |}), w')
     ∧ bounty (db w') !! 1 = Some {| complete := false |})
  ∧ (∃ w',
       awardBountyEntry ledgerCompletes 10 102 1001 w1
       = (Ok (1, 102, {| unitAmount := 50; currency := Currency.BUZZ;
                         awardedToId := Some 10; awardedAt := Some 1001 |}),
          w')
       ∧ bounty (db w') !! 1 = Some {| complete := true |}).
Proof.
  intros w1.
  pose (entry := {| entry_bountyId := 1; entry_userId := Some 7;
                    entry_description := "E" |}).
  pose (pledge := {| unitAmount := 50; currency := Currency.BUZZ;
                     awardedToId := None; awardedAt := None |}).
  split.
  - destruct (proj2 (awardBountyEntry_completion ledgerCompletes 10 101 1000
                       scenario)
                entry {| complete := false |} pledge)
      as (w' & parent' & Hcall & Hbounty & _ & _ & Hstays).
    + constructor; reflexivity.
    + reflexivity.
    + exists w'. split; [exact Hcall|].
      assert (complete parent' = false) as Hc.
      { apply Hstays. exists 102, pledge. split; [lia|]. by split. }
      destruct parent' as [c]. simpl in Hc. by rewrite Hc in Hbounty.
  - destruct (proj2 (awardBountyEntry_completion ledgerCompletes 10 102 1001
                       w1)
                entry {| complete := false |} pledge)
      as (w' & parent' & Hcall & Hbounty & _ & Hlast & _).
    + constructor; reflexivity.
    + reflexivity.
    + exists w'. split; [exact Hcall|].
      assert (complete parent' = true) as Hc.
      { apply Hlast. intros u b Hu Hb.
        assert (bountyBenefactor (db w1)
                = <[(1, 101) := awardedRow 10 1000 pledge]>
                    (<[(1, 102) := pledge]> ∅)) as Hrows
          by (vm_compute; reflexivity).
        change (entry_bountyId entry) with 1 in Hb. rewrite Hrows in Hb.
        apply lookup_insert_Some in Hb as [[_ <-]|[_ Hb]]; [done|].
        apply lookup_insert_Some in Hb as [[[= <-] _]|[_ Hb]]; [done|].
        by rewrite lookup_empty in Hb. }
      destruct parent' as [c]. simpl in Hc. by rewrite Hc in Hbounty.
Defined.

(** C3 in the scenario: once benefactor 101 has awarded entry 10 its row
    stays as it is, and a second award by 101 is rejected. *)
Lemma awarded_benefactor_is_final_witness :
  let w := (awardBountyEntry ledgerCompletes 10 101 1000 scenario).2 in
  let b := {| unitAmount := 50; currency := Currency.BUZZ;
              awardedToId := Some 10; awardedAt := Some 1000 |} in
  (∀ ops,
     bountyBenefactor
       (db (steps attachFiles attachImages listFilesByEntity ledgerCompletes
              w ops)) !! (1, 101) = Some b)
  ∧ (∀ id now entry parent,
       bountyEntry (db w) !! id = Some entry →
       entry_bountyId entry = 1 →
       bounty (db w) !! 1 = Some parent →
       isInvalidState (awardBountyEntry ledgerCompletes id 101 now w).1
       ∧ (awardBountyEntry ledgerCompletes id 101 now w).2 = w).
Proof.
  apply (awarded_benefactor_is_final _ _ attachFiles attachImages
           listFilesByEntity ledgerCompletes 1 101 _ 10).
  - vm_compute. reflexivity.
  - reflexivity.
  - lia.
Defined.

(** C4 in the scenario: after both awards the bounty is complete and a
    further award is rejected. *)
Lemma awardBountyEntry_complete_rejected_witness :
  let w1 := (awardBountyEntry ledgerCompletes 10 101 1000 scenario).2 in
  let w := (awardBountyEntry ledgerCompletes 10 102 1001 w1).2 in
  isInvalidState (awardBountyEntry ledgerCompletes 10 101 1002 w).1
  ∧ (awardBountyEntry ledgerCompletes 10 101 1002 w).2 = w.
Proof.
  apply (awardBountyEntry_complete_rejected ledgerCompletes 10 101 1002 _
           {| entry_bountyId := 1; entry_userId := Some 7;
              entry_description := "E" |}
           {| complete := true |}).
  - vm_compute. reflexivity.
  - vm_compute. reflexivity.
  - reflexivity.
Defined.

(** C5 as stated fails: an entry awarded 100 USD has received nonzero
    awarded funds, yet [deleteBountyEntry] does not fail and the entry is
    gone. *)
Lemma deleteBountyEntry_ignores_usd_award :
  awardedFunds (db usd_awarded) 10 = 100
  ∧ ¬ isInvalidState (deleteBountyEntry 10 usd_awarded).1
  ∧ bountyEntry (db (deleteBountyEntry 10 usd_awarded).2) !! 10 = None.
Proof.
  split; [by vm_compute|]. split; [|by vm_compute].
  intros [message H]. vm_compute in H. discriminate H.
Qed.

(** C5 (amended) in the scenario: entry 10 cannot be deleted once
    benefactor 101 has awarded it 50 BUZZ; before any award it is deleted
    with its file, its image connection and its image. *)
Lemma deleteBountyEntry_guard_witness :
  let w1 := (awardBountyEntry ledgerCompletes 10 101 1000 scenario).2 in
  (isInvalidState (deleteBountyEntry 10 w1).1
   ∧ (deleteBountyEntry 10 w1).2 = w1)
  ∧ (deleteBountyEntry 10 scenario).1
    = Ok (Some {| entry_bountyId := 1; entry_userId := Some 7;
                  entry_description := "E" |})
  ∧ db (deleteBountyEntry 10 scenario).2
    = {| bounty := bounty (db scenario); bountyEntry := ∅;
         bountyBenefactor := bountyBenefactor (db scenario);
         file := ∅; imageConnection := []; image := ∅ |}.
Proof.
  split; [|split].
  - apply (deleteBountyEntry_guard 10 _
             {| entry_bountyId := 1; entry_userId := Some 7;
                entry_description := "E" |}
             {| complete := false |}).
    + vm_compute. reflexivity.
    + vm_compute. reflexivity.
    + vm_compute. reflexivity.
  - apply (deleteBountyEntry_guard 10 scenario
             {| entry_bountyId := 1; entry_userId := Some 7;
                entry_description := "E" |}
             {| complete := false |}).
    + vm_compute. reflexivity.
    + vm_compute. reflexivity.
    + vm_compute. reflexivity.
  - vm_compute. reflexivity.
Defined.

(** C6 as stated fails: the file of entry 10 is not benefactors-only and
    unlocks at 100, the entry has been awarded 100 USD, yet an anonymous
    caller receives a null URL, because for that caller only BUZZ awards
    are counted. *)
Lemma getBountyEntryFilteredFiles_counts_one_currency :
  benefactorsOnly (file_metadata sampleFile) ≠ Some true
  ∧ default 0 (unlockAmount (file_metadata sampleFile))
    ≤ awardedFunds (db usd_awarded) 10
  ∧ file_url sampleFile ≠ None
  ∧ (getBountyEntryFilteredFiles listFilesByEntity 10 None false
       usd_awarded).1
    = Ok [(5, without_url sampleFile)].
Proof.
  split; [done|]. split; [by vm_compute|]. split; [done|].
  vm_compute. reflexivity.
Qed.

(** C7 as stated fails: awarding an entry that does not exist fails, but
    not with InvalidState. *)
Lemma awardBountyEntry_missing_entry_not_InvalidState :
  bountyEntry (db empty_world) !! 10 = None
  ∧ ¬ isInvalidState (awardBountyEntry ledgerCompletes 10 101 1000
                        empty_world).1.
Proof.
  split; [done|]. intros [message H]. vm_compute in H. discriminate H.
Qed.

(** C7 (amended) on a store without the entry and on a store with an
    ownerless entry. *)
Lemma awardBountyEntry_entry_checks_witness :
  (isNotFound (awardBountyEntry ledgerCompletes 10 101 1000 empty_world).1
   ∧ (awardBountyEntry ledgerCompletes 10 101 1000 empty_world).2
     = empty_world)
  ∧ (isInvalidState (awardBountyEntry ledgerCompletes 10 101 1000 ownerless).1
     ∧ (awardBountyEntry ledgerCompletes 10 101 1000 ownerless).2
       = ownerless).
Proof.
  split.
  - apply (awardBountyEntry_entry_checks ledgerCompletes 10 101 1000
             empty_world).
    reflexivity.
  - apply (proj2 (awardBountyEntry_entry_checks ledgerCompletes 10 101 1000
                    ownerless)
             {| entry_bountyId := 1; entry_userId := None;
                entry_description := "E" |}
             {| complete := false |}); reflexivity.
Defined.

(** C8 in the scenario: bounty 1 goes from incomplete to complete with the
    two awards and stays so through a later upsert, listing and deletion
    attempt. *)
Lemma complete_is_monotonic_witness :
  let ops := [Award 10 101 1000; Award 10 102 1001;
              Upsert (Some 10) 1 None None "E, revised" 7;
              ListFiles 10 None false; Delete 10] in
  ∃ b',
    bounty (db (steps attachFiles attachImages listFilesByEntity
                  ledgerCompletes scenario ops)) !! 1 = Some b'
    ∧ (b' = {| complete := false |}
       ∨ (complete {| complete := false |} = false ∧ complete b' = true))
    ∧ (complete {| complete := false |} = true → complete b' = true).
Proof.
  apply (complete_is_monotonic _ _ attachFiles attachImages listFilesByEntity
           ledgerCompletes).
  reflexivity.
Defined.

(** C9 in the scenario: an award whose ledger transfer is refused fails
    after the benefactor update was issued, and the database is as before;
    so it is after the deletion of an entry that does not exist. *)
Lemma failure_rolls_back_witness :
  outcome attachFiles attachImages listFilesByEntity ledgerRefuses scenario
    (Award 10 101 1000) = Some LedgerError
  ∧ db (step attachFiles attachImages listFilesByEntity ledgerRefuses
          scenario (Award 10 101 1000)) = db scenario
  ∧ db (step attachFiles attachImages listFilesByEntity ledgerRefuses
          scenario (Delete 11)) = db scenario.
Proof.
  split; [by vm_compute|]. split.
  - apply (failure_rolls_back _ _ attachFiles attachImages listFilesByEntity
             ledgerRefuses scenario (Award 10 101 1000) LedgerError).
    vm_compute. reflexivity.
  - apply (failure_rolls_back _ _ attachFiles attachImages listFilesByEntity
             ledgerRefuses scenario (Delete 11) NotFoundError).
    vm_compute. reflexivity.
Defined.

(** C6 (amended) in the scenario, where the file unlocks at 100: with 50
    BUZZ awarded an anonymous caller receives a null URL, with 100 BUZZ
    awarded the real URL; the owner and moderators receive the real URL
    throughout. *)
Lemma getBountyEntryFilteredFiles_gating_witness :
  let w1 := (awardBountyEntry ledgerCompletes 10 101 1000 scenario).2 in
  let w2 := (awardBountyEntry ledgerCompletes 10 102 1001 w1).2 in
  let list := getBountyEntryFilteredFiles listFilesByEntity 10 in
  ((list None true w1).1 = Ok (listFilesByEntity 10 "BountyEntry" (db w1))
   ∧ (list (Some 7) false w1).1
     = Ok (listFilesByEntity 10 "BountyEntry" (db w1)))
  ∧ (∃ out,
       (list None false w1).1 = Ok out
       ∧ Forall2
           (λ f g : Z * File,
              let visible :=
                (benefactorsOnly (file_metadata f.2) ≠ Some true
                 ∨ (callerBenefactor None
                      {| entry_bountyId := 1; entry_userId := Some 7;
                         entry_description := "E" |} (db w1)
                    ≫= awardedToId) = Some 10)
                ∧ default 0 (unlockAmount (file_metadata f.2))
                  ≤ awardedUnitAmount (db w1) 10 Currency.BUZZ in
              (visible → g = f) ∧ (¬ visible → g = (f.1, without_url f.2)))
           (listFilesByEntity 10 "BountyEntry" (db w1)) out)
  ∧ (list None false w1).1 = Ok [(5, without_url sampleFile)]
  ∧ (list None false w2).1 = Ok [(5, sampleFile)].
Proof.
  intros w1 w2 list.
  pose (entry := {| entry_bountyId := 1; entry_userId := Some 7;
                    entry_description := "E" |}).
  split; [split|split; [|split]].
  - apply (getBountyEntryFilteredFiles_gating listFilesByEntity 10 None true
             w1 entry); [by vm_compute|by right].
  - apply (getBountyEntryFilteredFiles_gating listFilesByEntity 10 (Some 7)
             false w1 entry); [by vm_compute|].
    left. exists 7. by split.
  - apply (getBountyEntryFilteredFiles_gating listFilesByEntity 10 None false
             w1 entry); [by vm_compute| |done].
    intros (u & Hu & _). discriminate Hu.
  - by vm_compute.
  - by vm_compute.
Defined.

(** C10 in the scenario: an upsert of entry 10 with a new description and
    a new file, called with another bounty id and by another user, keeps
    the entry's bounty and owner. *)
Lemma upsertBountyEntry_existing_witness :
  let e := {| entry_bountyId := 1; entry_userId := Some 7;
              entry_description := "E" |} in
  let files := Some [(6, sampleFile)] in
  let images : option (list (Z * Image)) := None in
  let call :=
    upsertBountyEntry attachFiles attachImages (Some 10) 2 files images
      "E, revised" 8 scenario in
  ∃ e',
    bountyEntry (db call.2) !! 10 = Some e'
    ∧ entry_bountyId e' = entry_bountyId e
    ∧ entry_userId e' = entry_userId e
    ∧ (∀ r, call.1 = Ok r → r = Some (10, e'))
    ∧ (∀ j, j ≠ 10 →
            bountyEntry (db call.2) !! j = bountyEntry (db scenario) !! j)
    ∧ bounty (db call.2) = bounty (db scenario)
    ∧ bountyBenefactor (db call.2) = bountyBenefactor (db scenario)
    ∧ (files = None → file (db call.2) = file (db scenario))
    ∧ (images = None →
       imageConnection (db call.2) = imageConnection (db scenario)
       ∧ image (db call.2) = image (db scenario)).
Proof.
  apply (upsertBountyEntry_existing _ _ attachFiles attachImages 10
           {| entry_bountyId := 1; entry_userId := Some 7;
              entry_description := "E" |}
           2 (Some [(6, sampleFile)]) None "E, revised" 8 scenario).
  - by vm_compute.
  - lia.
Defined.

(** * The further properties on the sample stores *)

(** X2 in the scenario: the award of benefactor 101 raises the BUZZ awarded
    to entry 10 by 50. *)
Lemma awardBountyEntry_raises_earned_witness :
  let w' := (awardBountyEntry ledgerCompletes 10 101 1000 scenario).2 in
  awardedUnitAmount (db w') 10 Currency.BUZZ
  = awardedUnitAmount (db scenario) 10 Currency.BUZZ
    + (if decide (Currency.BUZZ = Currency.BUZZ) then 50 else 0)
  ∧ ∀ other, other ≠ 10 → other ≠ 0 →
      awardedUnitAmount (db w') other Currency.BUZZ
      = awardedUnitAmount (db scenario) other Currency.BUZZ.
Proof.
  apply (awardBountyEntry_raises_earned ledgerCompletes 10 101 1000 scenario
           (1, 101, {| unitAmount := 50; currency := Currency.BUZZ;
                       awardedToId := Some 10; awardedAt := Some 1000 |})).
  - vm_compute. reflexivity.
  - lia.
Defined.

(** X3 in the scenario: after the award of benefactor 101 entry 10 cannot
    be deleted. *)
Lemma awardBountyEntry_then_delete_rejected_witness :
  let w' := (awardBountyEntry ledgerCompletes 10 101 1000 scenario).2 in
  isInvalidState (deleteBountyEntry 10 w').1 ∧ (deleteBountyEntry 10 w').2 = w'.
Proof.
  apply (awardBountyEntry_then_delete_rejected ledgerCompletes 10 101 1000
           scenario
           (1, 101, {| unitAmount := 50; currency := Currency.BUZZ;
                       awardedToId := Some 10; awardedAt := Some 1000 |})).
  - vm_compute. reflexivity.
  - lia.
  - reflexivity.
  - simpl. lia.
  - vm_compute. discriminate.
Defined.

(** X4 in the scenario: user 999 has pledged nothing to bounty 1. *)
Lemma awardBountyEntry_no_benefactor_witness :
  awardBountyEntry ledgerCompletes 10 999 1000 scenario
  = (Err NotFoundError, scenario).
Proof.
  apply (awardBountyEntry_no_benefactor ledgerCompletes 10 999 1000 scenario
           {| entry_bountyId := 1; entry_userId := Some 7;
              entry_description := "E" |}
           {| complete := false |}); reflexivity.
Defined.

(** X5 in the scenario with a ledger that refuses. *)
Lemma awardBountyEntry_ledger_refuses_witness :
  awardBountyEntry ledgerRefuses 10 101 1000 scenario
  = (Err LedgerError,
     {| db := db scenario;
        calls :=
          [bountyBenefactor_update_call 1 101;
           createBuzzTransaction_call
             {| fromAccountId := 0; toAccountId := 7; amount := 50;
                type := TransactionType.Bounty;
                tx_description :=
                  "Reason: Bounty entry has been awarded!" |}] |}).
Proof.
  apply (awardBountyEntry_ledger_refuses ledgerRefuses 10 101 1000 scenario
           {| entry_bountyId := 1; entry_userId := Some 7;
              entry_description := "E" |}
           {| complete := false |}
           {| unitAmount := 50; currency := Currency.BUZZ;
              awardedToId := None; awardedAt := None |}).
  - constructor; reflexivity.
  - reflexivity.
  - reflexivity.
Defined.

(** X7 in the scenario. *)
Lemma awardBountyEntry_frame_witness :
  let w' := (awardBountyEntry ledgerCompletes 10 101 1000 scenario).2 in
  bountyEntry (db w') = bountyEntry (db scenario)
  ∧ file (db w') = file (db scenario)
  ∧ imageConnection (db w') = imageConnection (db scenario)
  ∧ image (db w') = image (db scenario)
  ∧ (∀ k, k ≠ (1, 101) →
          bountyBenefactor (db w') !! k = bountyBenefactor (db scenario) !! k)
  ∧ (∀ j, j ≠ 1 → bounty (db w') !! j = bounty (db scenario) !! j).
Proof.
  apply (awardBountyEntry_frame ledgerCompletes 10 101 1000 scenario
           (1, 101, {| unitAmount := 50; currency := Currency.BUZZ;
                       awardedToId := Some 10; awardedAt := Some 1000 |})).
  vm_compute. reflexivity.
Defined.

(** X8 in the scenario: user 8 submits a new entry to bounty 1; it gets the
    id 11. *)
Lemma upsertBountyEntry_creates_witness :
  let call :=
    upsertBountyEntry attachFiles attachImages None 1 None None "F" 8
      scenario in
  ∃ newId e,
    call.1 = Ok (Some (newId, e))
    ∧ newId ≠ 0
    ∧ bountyEntry (db scenario) !! newId = None
    ∧ entry_bountyId e = 1
    ∧ entry_userId e = Some 8
    ∧ bountyEntry (db call.2) !! newId = Some e
    ∧ ∀ j old, bountyEntry (db scenario) !! j = Some old →
               bountyEntry (db call.2) !! j = Some old.
Proof.
  intros call.
  destruct (upsertBountyEntry_creates _ _ attachFiles attachImages None 1 None
              None "F" 8 scenario
              (Some (11, {| entry_bountyId := 1; entry_userId := Some 8;
                            entry_description := "F" |}))
              call.2)
    as (newId & e & Hr & Hrest); [reflexivity|by vm_compute|].
  exists newId, e. split; [by rewrite <- Hr; vm_compute|exact Hrest].
Defined.

(** X9 in the scenario: there is no entry 11. *)
Lemma upsertBountyEntry_missing_witness :
  upsertBountyEntry attachFiles attachImages (Some 11) 1
    (Some [(6, sampleFile)]) None "F" 8 scenario
  = (Err NotFoundError, scenario).
Proof.
  apply (upsertBountyEntry_missing _ _ attachFiles attachImages 11 1
           (Some [(6, sampleFile)]) None "F" 8 scenario); [lia|reflexivity].
Defined.

(** X10 in the scenario: the revised entry 10 is what the store returns. *)
Lemma upsertBountyEntry_then_read_witness :
  let call :=
    upsertBountyEntry attachFiles attachImages (Some 10) 1 None None
      "E, revised" 7 scenario in
  ∃ i e entries,
    call.1 = Ok (Some (i, e))
    ∧ getEntryById i call.2 = (Ok (Some e), call.2)
    ∧ getAllEntriesByBountyId (entry_bountyId e) None call.2
      = (Ok entries, call.2)
    ∧ (i, e) ∈ entries.
Proof.
  intros call.
  destruct (upsertBountyEntry_then_read _ _ attachFiles attachImages (Some 10)
              1 None None "E, revised" 7 scenario
              (Some (10, {| entry_bountyId := 1; entry_userId := Some 7;
                            entry_description := "E, revised" |}))
              call.2)
    as (i & e & entries & Hr & Hrest); [by vm_compute|].
  exists i, e, entries. split; [by rewrite <- Hr; vm_compute|exact Hrest].
Defined.

(** X11 in the scenario: entry 10 is deleted before any award. *)
Lemma deleteBountyEntry_then_gone_witness :
  let w' := (deleteBountyEntry 10 scenario).2 in
  getEntryById 10 w' = (Ok None, w')
  ∧ (∀ bountyId userId entries e,
       getAllEntriesByBountyId bountyId userId w' = (Ok entries, w') →
       (10, e) ∉ entries)
  ∧ deleteBountyEntry 10 w' = (Err NotFoundError, w')
  ∧ (∀ userId now,
       awardBountyEntry ledgerCompletes 10 userId now w'
       = (Err NotFoundError, w'))
  ∧ (∀ userId isModerator,
       getBountyEntryFilteredFiles listFilesByEntity 10 userId isModerator w'
       = (Err NotFoundError, w')).
Proof.
  apply (deleteBountyEntry_then_gone listFilesByEntity ledgerCompletes 10
           scenario
           (Some {| entry_bountyId := 1; entry_userId := Some 7;
                    entry_description := "E" |})).
  vm_compute. reflexivity.
Defined.

(** X12 on the store with the restricted file. *)
Lemma getBountyEntryFilteredFiles_total_witness :
  ∃ out,
    getBountyEntryFilteredFiles listFilesByEntity 10 (Some 101) false
      restricted = (Ok out, restricted)
    ∧ Forall2 (λ f g : Z * File,
                 g.1 = f.1 ∧ (g.2 = f.2 ∨ g.2 = without_url f.2))
              (listFilesByEntity 10 "BountyEntry" (db restricted)) out.
Proof.
  apply (getBountyEntryFilteredFiles_total listFilesByEntity 10 (Some 101)
           false restricted
           {| entry_bountyId := 1; entry_userId := Some 7;
              entry_description := "E" |}).
  vm_compute. reflexivity.
Defined.

(** X13 on the store with the restricted file: benefactor 101 has not
    awarded entry 10 and receives no URL for the restricted file. *)
Lemma getBountyEntryFilteredFiles_benefactorsOnly_witness :
  ∃ out,
    getBountyEntryFilteredFiles listFilesByEntity 10 (Some 101) false
      restricted = (Ok out, restricted)
    ∧ ∀ k f, (k, f) ∈ out →
             benefactorsOnly (file_metadata f) = Some true →
             file_url f = None.
Proof.
  apply (getBountyEntryFilteredFiles_benefactorsOnly listFilesByEntity 10
           (Some 101) restricted
           {| entry_bountyId := 1; entry_userId := Some 7;
              entry_description := "E" |}).
  - vm_compute. reflexivity.
  - intros (u & [= <-] & Hu). discriminate Hu.
  - vm_compute. discriminate.
Defined.

(** X14 in the scenario, whose only bounty is not complete. *)
Lemma completeMeansAwarded_invariant_witness :
  completeMeansAwarded
    (db (steps attachFiles attachImages listFilesByEntity ledgerCompletes
           scenario
           [Award 10 101 1000; Delete 10; Award 10 102 1001;
            Upsert None 1 None None "F" 8])).
Proof.
  apply (completeMeansAwarded_invariant _ _ attachFiles attachImages
           listFilesByEntity ledgerCompletes scenario).
  intros j b Hb Hc. simpl in Hb.
  apply lookup_singleton_Some in Hb as [_ <-]. discriminate Hc.
Defined.

(** * Properties of the model service *)

Section ModelReportsProperties.

Context {ReportReason : Type} `{EqDecision ReportReason}.
Variable NSFW : ReportReason.

(** X15. Reporting an existing model returns, marks the model [nsfw] for
    the reason NSFW and [tosViolation] for any other reason, never clears
    either mark, leaves the model's other columns and the other models as
    they are, and stores exactly one report with the given model, reason
    and user. *)
Theorem reportModelById_existing id reason userId d m :
  model d !! id = Some m →
  ∃ m' d',
    reportModelById NSFW id reason userId d
    = (Ok (m', {| report_modelId := id; report_reason := reason;
                  report_userId := userId |}), d')
    ∧ model_nsfw m' = model_nsfw m || bool_decide (reason = NSFW)
    ∧ model_tosViolation m'
      = model_tosViolation m || bool_decide (reason ≠ NSFW)
    ∧ model_name m' = model_name m
    ∧ model_userId m' = model_userId m
    ∧ model d' !! id = Some m'
    ∧ (∀ j, j ≠ id → model d' !! j = model d !! j)
    ∧ modelReport d'
      = modelReport d
        ++ [{| report_modelId := id; report_reason := reason;
               report_userId := userId |}].
Proof.
  intros Hm. unfold reportModelById, updateModelById, modelReport_create.
  rewrite Hm. eexists _, _. split; [done|]. simpl.
  destruct (decide (reason = NSFW)) as [->|Hne]; simpl.
  - rewrite bool_decide_eq_true_2, bool_decide_eq_false_2 by auto.
    rewrite orb_true_r, orb_false_r.
    repeat split; try done; [apply lookup_insert_eq|].
    by intros j Hj; apply lookup_insert_ne.
  - rewrite bool_decide_eq_false_2, bool_decide_eq_true_2 by done.
    rewrite orb_true_r, orb_false_r.
    repeat split; try done; [apply lookup_insert_eq|].
    by intros j Hj; apply lookup_insert_ne.
Qed.

(** X16. Reporting a model that does not exist fails with Prisma's
    not-found error and stores no report: the transaction keeps neither
    the update nor the report. *)
Theorem reportModelById_missing id reason userId d :
  model d !! id = None →
  reportModelById NSFW id reason userId d = (Err NotFoundError, d).
Proof.
  intros Hm. unfold reportModelById, updateModelById. by rewrite Hm.
Qed.

Lemma reportModelById_step id reason userId d k m :
  model d !! k = Some m →
  ∃ m', model (reportModelById NSFW id reason userId d).2 !! k = Some m'
        ∧ (model_nsfw m = true → model_nsfw m' = true)
        ∧ (model_tosViolation m = true → model_tosViolation m' = true)
        ∧ model_name m' = model_name m
        ∧ model_userId m' = model_userId m.
Proof.
  intros Hk. unfold reportModelById, updateModelById, modelReport_create.
  destruct (model d !! id) as [mi|] eqn:Hi; simpl; [|eauto 10].
  destruct (decide (id = k)) as [->|Hne].
  - rewrite lookup_insert_eq. eexists. split; [done|].
    rewrite Hk in Hi. injection Hi as <-.
    destruct (decide (reason = NSFW)); simpl; auto.
  - rewrite lookup_insert_ne by done. eauto 10.
Qed.

(** X17. Through any sequence of reports, of this or of other models, a
    model stays in the store with its name and owner, and a mark it has,
    [nsfw] or [tosViolation], is never cleared. *)
Theorem reported_marks_kept d reports k m :
  model d !! k = Some m →
  ∃ m', model (reported NSFW d reports) !! k = Some m'
        ∧ (model_nsfw m = true → model_nsfw m' = true)
        ∧ (model_tosViolation m = true → model_tosViolation m' = true)
        ∧ model_name m' = model_name m
        ∧ model_userId m' = model_userId m.
Proof.
  revert d m. induction reports as [|[[id reason] userId] reports IH];
    intros d m Hk; simpl.
  - exists m. auto.
  - destruct (reportModelById_step id reason userId d k m Hk)
      as (m1 & H1 & Hn & Ht & Hname & Hu).
    destruct (IH _ _ H1) as (m' & H' & Hn' & Ht' & Hname' & Hu').
    exists m'. split; [done|]. repeat split; [auto|auto|congruence..].
Qed.

Lemma reportModelById_dom id reason userId d k :
  is_Some (model (reportModelById NSFW id reason userId d).2 !! k)
  ↔ is_Some (model d !! k).
Proof.
  unfold reportModelById, updateModelById, modelReport_create.
  destruct (model d !! id) as [mi|] eqn:Hi; simpl; [|done].
  destruct (decide (id = k)) as [->|Hne].
  - rewrite lookup_insert_eq, Hi. split; eauto.
  - by rewrite lookup_insert_ne.
Qed.

(** X18. After any sequence of reports the store holds one more report for
    each report in the sequence that names an existing model, and none for
    the others. *)
Theorem reported_count d reports :
  length (modelReport (reported NSFW d reports))
  = (length (modelReport d)
     + length (filter (λ r : Z * ReportReason * Z,
                         is_Some (model d !! r.1.1)) reports))%nat.
Proof.
  revert d. induction reports as [|[[id reason] userId] reports IH];
    intros d; simpl; [lia|].
  rewrite IH.
  rewrite (list_filter_iff
             (λ r : Z * ReportReason * Z,
                is_Some (model (reportModelById NSFW id reason userId d).2
                         !! r.1.1))
             (λ r : Z * ReportReason * Z, is_Some (model d !! r.1.1)))
    by (intros r; apply reportModelById_dom).
  unfold reportModelById, updateModelById, modelReport_create.
  destruct (model d !! id) as [mi|] eqn:Hi; simpl.
  - rewrite filter_cons_True by (simpl; rewrite Hi; eauto).
    rewrite length_app. simpl. lia.
  - rewrite filter_cons_False by (simpl; rewrite Hi; by intros [? ?]). lia.
Qed.

(** X19. After a model is deleted, deleting it again or reporting it fails
    with Prisma's not-found error and changes nothing; the other models
    are as before the deletion. *)
Theorem deleteModelById_then_gone id d m d' :
  deleteModelById id d = (Ok m, d') →
  model d !! id = Some m
  ∧ deleteModelById id d' = (Err NotFoundError, d')
  ∧ (∀ reason userId,
       reportModelById NSFW id reason userId d' = (Err NotFoundError, d'))
  ∧ (∀ j, j ≠ id → model d' !! j = model d !! j)
  ∧ modelReport d' = modelReport d.
Proof.
  unfold deleteModelById.
  destruct (model d !! id) as [m0|] eqn:Hm; [|done].
  intros [= <- <-]. split; [done|].
  unfold reportModelById, updateModelById. simpl.
  rewrite lookup_delete_eq. repeat split; try done.
  by intros j Hj; apply lookup_delete_ne.
Qed.

End ModelReportsProperties.

Section UpdateModelProperties.

Context {FileType : Type} `{Countable FileType}.

Lemma splitTags_fold (tags : list TagInput) (create update : list TagInput) :
  foldl (λ acc current,
           if negb (truthy (tag_id current))
           then (acc.1 ++ [current], acc.2)
           else (acc.1, acc.2 ++ [current]))
        (create, update) tags
  = (create ++ filter (λ t, truthy (tag_id t) = false) tags,
     update ++ filter (λ t, truthy (tag_id t) = true) tags).
Proof.
  revert create update. induction tags as [|t tags IH]; intros create update.
  - simpl. by rewrite !app_nil_r.
  - simpl. destruct (truthy (tag_id t)) eqn:Ht; simpl; rewrite IH.
    + rewrite filter_cons_False by (by rewrite Ht).
      rewrite filter_cons_True by done. by rewrite <- app_assoc.
    + rewrite filter_cons_True by done.
      rewrite filter_cons_False by (by rewrite Ht). by rewrite <- app_assoc.
Qed.

(** X20. [updateModel] splits the submitted tags in two: the tags without
    an id (or with the id 0) are to be created, the tags with an id are to
    be connected, each list in the order of submission; every submitted
    tag is in exactly one of the two, and without [tagsOnModels] both are
    empty. *)
Theorem splitTags_partition (tagsOnModels : option (list TagInput)) :
  let tags := default [] tagsOnModels in
  (splitTags tagsOnModels).1 = filter (λ t, truthy (tag_id t) = false) tags
  ∧ (splitTags tagsOnModels).2 = filter (λ t, truthy (tag_id t) = true) tags
  ∧ (splitTags tagsOnModels).1 ++ (splitTags tagsOnModels).2 ≡ₚ tags
  ∧ ∀ t, ¬ (t ∈ (splitTags tagsOnModels).1 ∧ t ∈ (splitTags tagsOnModels).2).
Proof.
  destruct tagsOnModels as [tags|]; simpl.
  - unfold splitTags. rewrite splitTags_fold. simpl.
    split; [done|]. split; [done|]. split.
    + induction tags as [|t tags IH]; [done|].
      destruct (truthy (tag_id t)) eqn:Ht.
      * rewrite filter_cons_False by (by rewrite Ht).
        rewrite filter_cons_True by done.
        rewrite <- Permutation_middle. by constructor.
      * rewrite filter_cons_True by done.
        rewrite filter_cons_False by (by rewrite Ht). simpl.
        by constructor.
    + intros t [[Hf _]%list_elem_of_filter [Ht _]%list_elem_of_filter].
      congruence.
  - split; [done|]. split; [done|]. split; [done|].
    intros t [[]%elem_of_nil _].
Qed.

Lemma elem_of_versionIds (modelVersions : list (VersionInput FileType)) v :
  v ∈ versionIds modelVersions
  ↔ v ≠ 0 ∧ ∃ version, version ∈ modelVersions ∧ ver_id version = Some v.
Proof.
  unfold versionIds. rewrite list_elem_of_omap. split.
  - intros (version & Hin & Hid).
    destruct (truthy (ver_id version)) eqn:Ht; [|done].
    apply truthy_true in Ht as (n & Hn & Hne).
    rewrite Hn in Hid. injection Hid as <-. eauto.
  - intros (Hne & version & Hin & Hid). exists version. split; [done|].
    by rewrite Hid, truthy_Some_nonzero.
Qed.

(** X21. [updateModel] deletes exactly the stored versions whose id is not
    the id of a submitted version: a stored version that is submitted with
    its id is never deleted, and when every stored version is submitted
    nothing is deleted. *)
Theorem versionsToDelete_spec (currentVersions : list (CurrentVersion FileType))
    (modelVersions : list (VersionInput FileType)) :
  (∀ v, v ∈ versionsToDelete currentVersions modelVersions
        ↔ (∃ stored, stored ∈ currentVersions ∧ cur_id stored = v)
          ∧ ¬ (v ≠ 0 ∧ ∃ version, version ∈ modelVersions
                                  ∧ ver_id version = Some v))
  ∧ ((∀ stored, stored ∈ currentVersions →
        cur_id stored ≠ 0
        ∧ ∃ version, version ∈ modelVersions
                     ∧ ver_id version = Some (cur_id stored)) →
     versionsToDelete currentVersions modelVersions = []).
Proof.
  assert (∀ v, v ∈ versionsToDelete currentVersions modelVersions
        ↔ (∃ stored, stored ∈ currentVersions ∧ cur_id stored = v)
          ∧ ¬ (v ≠ 0 ∧ ∃ version, version ∈ modelVersions
                                  ∧ ver_id version = Some v)) as Hspec.
  { intros v. unfold versionsToDelete. rewrite list_elem_of_fmap.
    setoid_rewrite list_elem_of_filter.
    setoid_rewrite elem_of_versionIds. split.
    - intros (stored & -> & Hn & Hin). split; [eauto|done].
    - intros [(stored & Hin & <-) Hn]. eauto. }
  split; [done|]. intros Hall.
  apply elem_of_nil_inv. intros v Hv.
  apply Hspec in Hv as [(stored & Hin & <-) Hn]. apply Hn, Hall, Hin.
Qed.

Lemma existingFileUrls_snoc (files : list (StoredFile FileType)) f :
  existingFileUrls (files ++ [f])
  = <[stored_type f := stored_url f]> (existingFileUrls files).
Proof. unfold existingFileUrls. by rewrite foldl_app. Qed.

(** The URL recorded for the type of a stored file, when no two stored
    files have the same type. *)
Lemma existingFileUrls_lookup (files : list (StoredFile FileType)) f :
  NoDup (stored_type <$> files) →
  f ∈ files →
  existingFileUrls files !! stored_type f = Some (stored_url f).
Proof.
  induction files as [|x files IH] using rev_ind; [by intros _ ?%elem_of_nil|].
  rewrite fmap_app, existingFileUrls_snoc. simpl.
  intros [Hnd [Hx _]]%NoDup_app Hin.
  apply elem_of_app in Hin as [Hin|Hin%list_elem_of_singleton]; subst.
  - rewrite lookup_insert_ne; [by apply IH|].
    intros Heq. apply (Hx (stored_type f)).
    + by apply list_elem_of_fmap_2.
    + rewrite Heq. by apply list_elem_of_singleton.
  - apply lookup_insert_eq.
Qed.

(** No URL is recorded for a type that no stored file has. *)
Lemma existingFileUrls_None (files : list (StoredFile FileType)) type :
  type ∉ stored_type <$> files → existingFileUrls files !! type = None.
Proof.
  induction files as [|x files IH] using rev_ind; [done|].
  rewrite fmap_app, existingFileUrls_snoc. simpl. intros Hn.
  rewrite lookup_insert_ne.
  - apply IH. intros Hin. apply Hn, elem_of_app. by left.
  - intros <-. apply Hn, elem_of_app. right. by apply list_elem_of_singleton.
Qed.

Ltac diff_solver :=
  split; intros ?;
  repeat (destruct_or? || destruct_and?
          || match goal with H : ∃ _, _ |- _ => destruct H end);
  simplify_eq; try done; eauto 10.

Lemma fileStep_fold urls (files : list (FileInput FileType)) create update :
  let result := foldl (fileStep urls) (create, update) files in
  (∀ f, f ∈ result.1
        ↔ f ∈ create
          ∨ (f ∈ files
             ∧ ∃ type, in_type f = Some type
                       ∧ (urls !! type = None ∨ urls !! type = Some "")))
  ∧ (∀ f, f ∈ result.2
          ↔ f ∈ update
            ∨ (f ∈ files
               ∧ ∃ type url, in_type f = Some type
                             ∧ urls !! type = Some url
                             ∧ url ≠ "" ∧ url ≠ in_url f)).
Proof.
  induction files as [|x files IH] using rev_ind; simpl.
  - split; intros f; rewrite elem_of_nil; diff_solver.
  - rewrite foldl_app. simpl. destruct IH as [IH1 IH2].
    destruct (foldl (fileStep urls) (create, update) files) as [c u].
    simpl in *. unfold fileStep.
    destruct (in_type x) as [type|] eqn:Hty; simpl.
    + destruct (urls !! type) as [url|] eqn:Hurl; simpl.
      * destruct (decide (url = "")) as [->|Hne].
        -- rewrite bool_decide_eq_true_2 by done. simpl. split; intros f.
           ++ rewrite elem_of_app, list_elem_of_singleton, IH1, elem_of_app,
                list_elem_of_singleton. diff_solver.
           ++ rewrite IH2, elem_of_app, list_elem_of_singleton. diff_solver.
        -- rewrite bool_decide_eq_false_2 by done.
           destruct (decide (url = in_url x)) as [Heq|Hdiff].
           ++ rewrite bool_decide_eq_false_2 by (by intros ?). simpl.
              split; intros f.
              ** rewrite IH1, elem_of_app, list_elem_of_singleton.
                 diff_solver.
              ** rewrite IH2, elem_of_app, list_elem_of_singleton.
                 diff_solver.
           ++ rewrite bool_decide_eq_true_2 by done. simpl. split; intros f.
              ** rewrite IH1, elem_of_app, list_elem_of_singleton.
                 diff_solver.
              ** rewrite elem_of_app, list_elem_of_singleton, IH2, elem_of_app,
                   list_elem_of_singleton. diff_solver.
      * split; intros f.
        -- rewrite elem_of_app, list_elem_of_singleton, IH1, elem_of_app,
             list_elem_of_singleton. diff_solver.
        -- rewrite IH2, elem_of_app, list_elem_of_singleton. diff_solver.
    + split; intros f.
      * rewrite IH1, elem_of_app, list_elem_of_singleton. diff_solver.
      * rewrite IH2, elem_of_app, list_elem_of_singleton. diff_solver.
Qed.

(** X22. For each submitted version [updateModel] creates the files that
    have a type for which the stored version records no URL (or an empty
    one), updates the files whose type has a stored URL different from the
    submitted one, and does neither for the other files: a file without a
    type is ignored, a file with an unchanged URL is left alone, and no
    file is both created and updated. *)
Theorem versionFileDiff_spec (currentVersions : list (CurrentVersion FileType))
    (version : VersionInput FileType) :
  let id := default (-1) (ver_id version) in
  let urls :=
    existingFileUrls
      (default [] (cur_files <$>
                     List.find (λ x, bool_decide (cur_id x = id))
                               currentVersions)) in
  let files := default [] (ver_files version) in
  let diff := versionFileDiff currentVersions version in
  (∀ f, f ∈ diff.1
        ↔ f ∈ files
          ∧ ∃ type, in_type f = Some type
                    ∧ (urls !! type = None ∨ urls !! type = Some ""))
  ∧ (∀ f, f ∈ diff.2
          ↔ f ∈ files
            ∧ ∃ type url, in_type f = Some type
                          ∧ urls !! type = Some url
                          ∧ url ≠ "" ∧ url ≠ in_url f)
  ∧ (∀ f, ¬ (f ∈ diff.1 ∧ f ∈ diff.2)).
Proof.
  intros id urls files diff.
  destruct (fileStep_fold urls files [] []) as [H1 H2].
  assert (∀ f, f ∈ diff.1
        ↔ f ∈ files
          ∧ ∃ type, in_type f = Some type
                    ∧ (urls !! type = None ∨ urls !! type = Some "")) as Hc.
  { intros f. etrans; [apply H1|]. rewrite elem_of_nil.
    split; [by intros [[]|?]|by right]. }
  assert (∀ f, f ∈ diff.2
          ↔ f ∈ files
            ∧ ∃ type url, in_type f = Some type
                          ∧ urls !! type = Some url
                          ∧ url ≠ "" ∧ url ≠ in_url f) as Hu.
  { intros f. etrans; [apply H2|]. rewrite elem_of_nil.
    split; [by intros [[]|?]|by right]. }
  split; [done|]. split; [done|].
  intros f [(_ & t1 & Ht1 & Hnone)%Hc (_ & t2 & url & Ht2 & Hsome & Hne & _)%Hu].
  rewrite Ht1 in Ht2. injection Ht2 as <-. rewrite Hsome in Hnone.
  destruct Hnone as [|[= ->]]; done.
Qed.

Lemma find_version_None (currentVersions : list (CurrentVersion FileType)) id :
  (∀ stored, stored ∈ currentVersions → cur_id stored ≠ id) →
  List.find (λ x, bool_decide (cur_id x = id)) currentVersions = None.
Proof.
  induction currentVersions as [|x l IH]; [done|]. intros Hall. simpl.
  rewrite bool_decide_eq_false_2 by (apply Hall; by left).
  apply IH. intros stored Hin. apply Hall. by right.
Qed.

Lemma find_version_Some (currentVersions : list (CurrentVersion FileType)) c :
  NoDup (cur_id <$> currentVersions) →
  c ∈ currentVersions →
  List.find (λ x, bool_decide (cur_id x = cur_id c)) currentVersions = Some c.
Proof.
  induction currentVersions as [|x l IH]; [by intros _ ?%elem_of_nil|].
  rewrite fmap_cons. intros [Hx Hnd]%NoDup_cons [->|Hin]%elem_of_cons; simpl.
  - by rewrite bool_decide_eq_true_2.
  - rewrite bool_decide_eq_false_2; [by apply IH|].
    intros Heq. apply Hx. rewrite Heq. by apply list_elem_of_fmap_2.
Qed.

(** X23. For a submitted version that is not stored (it has no id, or an
    id that no stored version has, and no stored version has the id -1),
    [updateModel] creates every submitted file that has a type and updates
    none. *)
Theorem versionFileDiff_new_version
    (currentVersions : list (CurrentVersion FileType))
    (version : VersionInput FileType) :
  (∀ stored, stored ∈ currentVersions →
             cur_id stored ≠ default (-1) (ver_id version)) →
  (versionFileDiff currentVersions version).2 = []
  ∧ ∀ f, f ∈ (versionFileDiff currentVersions version).1
         ↔ f ∈ default [] (ver_files version) ∧ is_Some (in_type f).
Proof.
  intros Hnew. unfold versionFileDiff.
  rewrite find_version_None by done. simpl.
  destruct (fileStep_fold (existingFileUrls []) (default [] (ver_files version))
              [] []) as [H1 H2].
  split.
  - apply elem_of_nil_inv. intros f Hf. apply H2 in Hf.
    destruct Hf as [[]%elem_of_nil|(_ & t & url & _ & Hl & _)].
    unfold existingFileUrls in Hl. simpl in Hl. by rewrite lookup_empty in Hl.
  - intros f. rewrite H1, elem_of_nil. split.
    + intros [[]|(Hin & t & Ht & _)]. split; [done|]. by rewrite Ht.
    + intros [Hin [t Ht]]. right. split; [done|]. exists t.
      split; [done|]. left. apply lookup_empty.
Qed.

(** X24. Submitting a stored version again with files that are all stored
    for it with the same URL creates no file and updates none, provided the
    stored versions have distinct ids, the stored files of the version have
    distinct types and none has an empty URL. *)
Theorem versionFileDiff_unchanged
    (currentVersions : list (CurrentVersion FileType))
    (version : VersionInput FileType) stored :
  stored ∈ currentVersions →
  NoDup (cur_id <$> currentVersions) →
  ver_id version = Some (cur_id stored) →
  NoDup (stored_type <$> cur_files stored) →
  (∀ s, s ∈ cur_files stored → stored_url s ≠ "") →
  (∀ f, f ∈ default [] (ver_files version) →
        in_type f = None
        ∨ ∃ s, s ∈ cur_files stored
               ∧ in_type f = Some (stored_type s)
               ∧ in_url f = stored_url s) →
  versionFileDiff currentVersions version = ([], []).
Proof.
  intros Hin Hids Hid Htypes Hurls Hfiles. unfold versionFileDiff.
  rewrite Hid. simpl. rewrite find_version_Some by done. simpl.
  destruct (fileStep_fold (existingFileUrls (cur_files stored))
              (default [] (ver_files version)) [] []) as [H1 H2].
  destruct (foldl _ _ _) as [create update]. simpl in *.
  assert (∀ f type, f ∈ default [] (ver_files version) →
                    in_type f = Some type →
                    existingFileUrls (cur_files stored) !! type
                    = Some (in_url f) ∧ in_url f ≠ "") as Hsame.
  { intros f type Hf Ht.
    destruct (Hfiles f Hf) as [Hnone|(s & Hs & Hty & Hu)]; [congruence|].
    rewrite Ht in Hty. injection Hty as ->. rewrite Hu.
    split; [by apply existingFileUrls_lookup | by apply Hurls]. }
  f_equal.
  - apply elem_of_nil_inv. intros f Hf. apply H1 in Hf.
    destruct Hf as [[]%elem_of_nil|(Hf & t & Ht & Hl)].
    destruct (Hsame f t Hf Ht) as [Hsome Hne]. rewrite Hsome in Hl.
    destruct Hl as [|[= Heq]]; done.
  - apply elem_of_nil_inv. intros f Hf. apply H2 in Hf.
    destruct Hf as [[]%elem_of_nil|(Hf & t & url & Ht & Hl & _ & Hdiff)].
    destruct (Hsame f t Hf Ht) as [Hsome _]. rewrite Hsome in Hl.
    by injection Hl as <-.
Qed.

End UpdateModelProperties.

(** * The properties of the model service on the sample data *)

(** X15 on the sample models: a report of model 1 for a reason other than
    NSFW. *)
Lemma reportModelById_existing_witness :
  ∃ m' d',
    reportModelById ReasonNSFW 1 ReasonOwnership 9 sampleModels
    = (Ok (m', {| report_modelId := 1; report_reason := ReasonOwnership;
                  report_userId := 9 |}), d')
    ∧ model_nsfw m' = false || bool_decide (ReasonOwnership = ReasonNSFW)
    ∧ model_tosViolation m'
      = false || bool_decide (ReasonOwnership ≠ ReasonNSFW)
    ∧ model_name m' = "portraits"
    ∧ model_userId m' = 7
    ∧ model d' !! 1 = Some m'
    ∧ (∀ j, j ≠ 1 → model d' !! j = model sampleModels !! j)
    ∧ modelReport d'
      = modelReport sampleModels
        ++ [{| report_modelId := 1; report_reason := ReasonOwnership;
               report_userId := 9 |}].
Proof.
  apply (reportModelById_existing ReasonNSFW 1 ReasonOwnership 9 sampleModels
           {| model_name := "portraits"; model_userId := 7;
              model_nsfw := false; model_tosViolation := false |}).
  reflexivity.
Defined.

(** X16 on the sample models: there is no model 3. *)
Lemma reportModelById_missing_witness :
  reportModelById ReasonNSFW 3 ReasonNSFW 9 sampleModels
  = (Err NotFoundError, sampleModels).
Proof.
  apply (reportModelById_missing ReasonNSFW 3 ReasonNSFW 9 sampleModels).
  reflexivity.
Defined.

(** X17 on the sample models: model 2 stays marked [nsfw] through reports
    for other reasons and of other models. *)
Lemma reported_marks_kept_witness :
  ∃ m',
    model (reported ReasonNSFW sampleModels
             [(2, ReasonTOSViolation, 9); (1, ReasonNSFW, 9);
              (3, ReasonNSFW, 9)])
      !! 2 = Some m'
    ∧ (true = true → model_nsfw m' = true)
    ∧ (false = true → model_tosViolation m' = true)
    ∧ model_name m' = "landscapes"
    ∧ model_userId m' = 8.
Proof.
  apply (reported_marks_kept ReasonNSFW sampleModels
           [(2, ReasonTOSViolation, 9); (1, ReasonNSFW, 9);
            (3, ReasonNSFW, 9)]
           2
           {| model_name := "landscapes"; model_userId := 8;
              model_nsfw := true; model_tosViolation := false |}).
  reflexivity.
Defined.

(** X19 on the sample models: model 1 is deleted. *)
Lemma deleteModelById_then_gone_witness :
  let d' := (deleteModelById 1 sampleModels).2 in
  model sampleModels !! 1
  = Some {| model_name := "portraits"; model_userId := 7;
            model_nsfw := false; model_tosViolation := false |}
  ∧ deleteModelById 1 d' = (Err NotFoundError, d')
  ∧ (∀ reason userId,
       reportModelById ReasonNSFW 1 reason userId d' = (Err NotFoundError, d'))
  ∧ (∀ j, j ≠ 1 → model d' !! j = model sampleModels !! j)
  ∧ modelReport d' = modelReport sampleModels.
Proof.
  apply (deleteModelById_then_gone ReasonNSFW 1 sampleModels).
  reflexivity.
Defined.

(** X23 on the sample data: a new version beside the stored version 4. *)
Lemma versionFileDiff_new_version_witness :
  (versionFileDiff [storedVersion] newVersion).2 = []
  ∧ ∀ f, f ∈ (versionFileDiff [storedVersion] newVersion).1
         ↔ f ∈ default [] (ver_files newVersion) ∧ is_Some (in_type f).
Proof.
  apply (versionFileDiff_new_version [storedVersion] newVersion).
  intros stored ->%list_elem_of_singleton. discriminate.
Defined.

(** X24 on the sample data: version 4 submitted with its model file and a
    file without a type. *)
Lemma versionFileDiff_unchanged_witness :
  versionFileDiff [storedVersion] sameFiles = ([], []).
Proof.
  apply (versionFileDiff_unchanged [storedVersion] sameFiles storedVersion).
  - by apply list_elem_of_singleton.
  - simpl. apply NoDup_singleton.
  - reflexivity.
  - simpl. apply NoDup_cons. split; [|apply NoDup_singleton].
    intros H%list_elem_of_singleton. discriminate H.
  - intros s Hs. simpl in Hs.
    apply elem_of_cons in Hs as [->|Hs]; [discriminate|].
    apply list_elem_of_singleton in Hs as ->. discriminate.
  - intros f Hf. simpl in Hf.
    apply elem_of_cons in Hf as [->|Hf].
    + right. eexists. split; [by left|]. by split.
    + apply list_elem_of_singleton in Hf as ->. by left.
Defined.
